(** * Quick file open: the query splitter and the result comparator

    A shallow embedding of [splitFilterAndRange] and [compareItems] of
    [packages/file-search/src/browser/quick-file-open.ts], with the
    JavaScript built-ins they rely on ([RegExp.prototype.exec], [parseInt],
    [Number.isFinite], [String.prototype.trim], [split], [includes],
    [indexOf], [substr]) modelled next to them. *)

From Stdlib Require Import ZArith NArith List Bool Lia Ascii String Permutation.
Import ListNotations.

Local Open Scope Z_scope.

(** ** JavaScript strings *)

(** A JavaScript string is a finite sequence of UTF-16 code units. *)
Definition jsstring := list N.

(** String literals of this file are ASCII; [js] reads one as code units. *)
Definition js (s : string) : jsstring :=
  map N_of_ascii (list_ascii_of_string s).

Module Str.

(** [WhiteSpace] and [LineTerminator] code units: the class [\s] of regular
    expressions, which is also what [trim] strips. *)
Definition is_space (c : N) : bool :=
  ((9 <=? c) && (c <=? 13) || (c =? 32) || (c =? 160) || (c =? 5760)
   || (8192 <=? c) && (c <=? 8202) || (c =? 8232) || (c =? 8233)
   || (c =? 8239) || (c =? 8287) || (c =? 12288) || (c =? 65279))%N.

(** The class [\d] (no unicode flag): [0-9]. *)
Definition is_digit (c : N) : bool := ((48 <=? c) && (c <=? 57))%N.

Definition one_of (set : string) (c : N) : bool :=
  existsb (N.eqb c) (js set).

Fixpoint eqb (s t : jsstring) : bool :=
  match s, t with
  | [], [] => true
  | c :: s', d :: t' => (c =? d)%N && eqb s' t'
  | _, _ => false
  end.

(** [strip_prefix p s] is what follows [p] in [s] when [s] starts with [p]. *)
Fixpoint strip_prefix (p s : jsstring) : option jsstring :=
  match p with
  | [] => Some s
  | c :: p' =>
      match s with
      | d :: s' => if (c =? d)%N then strip_prefix p' s' else None
      | [] => None
      end
  end.

Definition startsWith (s p : jsstring) : bool :=
  match strip_prefix p s with Some _ => true | None => false end.

(** [s.indexOf(p)]: the first position at which [p] occurs in [s], or [-1]. *)
Fixpoint indexOf_from (i : Z) (s p : jsstring) : Z :=
  if startsWith s p then i
  else match s with
       | [] => -1
       | _ :: s' => indexOf_from (i + 1) s' p
       end.

Definition indexOf (s p : jsstring) : Z := indexOf_from 0 s p.

(** [s.includes(p)]. *)
Fixpoint includes (s p : jsstring) : bool :=
  startsWith s p ||
  match s with
  | [] => false
  | _ :: s' => includes s' p
  end.

(** [s.length]. *)
Definition length (s : jsstring) : Z := Z.of_nat (List.length s).

(** [s.substr(0, n)]. *)
Definition substr0 (s : jsstring) (n : nat) : jsstring := firstn n s.

Fixpoint trimStart (s : jsstring) : jsstring :=
  match s with
  | c :: s' => if is_space c then trimStart s' else s
  | [] => []
  end.

Definition trimEnd (s : jsstring) : jsstring := rev (trimStart (rev s)).

(** [s.trim()]. *)
Definition trim (s : jsstring) : jsstring := trimEnd (trimStart s).

(** [s.split(/\s+/)]: the pieces of [s] between maximal runs of white
    space.  [acc] is the piece being read, reversed; [skipping] says that
    the previous code unit belonged to a separator. *)
Fixpoint split_ws_from (s acc : jsstring) (skipping : bool) : list jsstring :=
  match s with
  | [] => [rev acc]
  | c :: s' =>
      if is_space c
      then if skipping then split_ws_from s' acc true
           else rev acc :: split_ws_from s' [] true
      else split_ws_from s' (c :: acc) false
  end.

Definition split_ws (s : jsstring) : list jsstring := split_ws_from s [] false.

(** [parts.join('')]. *)
Definition join (parts : list jsstring) : jsstring := List.concat parts.

End Str.

(** ** JavaScript numbers, as far as the splitter needs them *)

Module Num.

(** The results of [parseInt]: NaN, an infinity, or a finite integer. *)
Inductive number :=
| NaN
| Infinity (negative : bool)
| Finite (z : Z).

Definition isFinite (x : number) : bool :=
  match x with Finite _ => true | _ => false end.

(** The integer nearest to [n >= 0] that a double holds in its 53-bit
    significand, ties to the even significand. *)
Definition round53 (n : Z) : Z :=
  let e := Z.log2 n - 52 in
  if e <=? 0 then n
  else
    let q := Z.shiftr n e in
    let r := n mod 2 ^ e in
    let half := 2 ^ (e - 1) in
    let q' := if r <? half then q
              else if half <? r then q + 1
              else if Z.even q then q else q + 1 in
    q' * 2 ^ e.

(** A rounded magnitude of [2^1024] or more is not a finite double. *)
Definition of_magnitude (negative : bool) (n : Z) : number :=
  let v := round53 n in
  if v <? 2 ^ 1024 then Finite (if negative then - v else v)
  else Infinity negative.

Definition digit_value (c : N) : Z := Z.of_N (c - 48).

Definition digits_value (ds : jsstring) : Z :=
  fold_left (fun acc c => 10 * acc + digit_value c) ds 0.

Fixpoint take_digits (s : jsstring) : jsstring :=
  match s with
  | c :: s' => if Str.is_digit c then c :: take_digits s' else []
  | [] => []
  end.

(** [parseInt(s, 10)]: leading white space and one sign are skipped, the
    longest run of decimal digits is read and its value rounded to a double,
    and no digit at all gives NaN. *)
Definition parseInt10 (s : jsstring) : number :=
  let s1 := Str.trimStart s in
  let '(negative, s2) :=
    match s1 with
    | c :: t => if (c =? 45)%N then (true, t)
                else if (c =? 43)%N then (false, t) else (false, s1)
    | [] => (false, s1)
    end in
  match take_digits s2 with
  | [] => NaN
  | ds => of_magnitude negative (digits_value ds)
  end.

(** [x - 1] on a positive finite integer-valued double. *)
Definition minus_one (x : Z) : Z := round53 (x - 1).

End Num.

(** ** Regular expressions: the backtracking matcher behind [exec] *)

Module RegExp.

Inductive regex :=
| Empty
| Class (p : N -> bool)
| Chars (s : jsstring)
| Seq (r1 r2 : regex)
| Opt (r : regex)
| Star (r : regex)
| Group (n : nat) (r : regex)
| Eos.

Definition captures := list (nat * jsstring).

Record mstate := { rest : jsstring; caps : captures }.

Definition advance (st : mstate) (t : jsstring) : mstate :=
  {| rest := t; caps := caps st |}.

Definition progressed (st0 st1 : mstate) : bool :=
  (List.length (rest st1) <? List.length (rest st0))%nat.

Definition or_else {A} (x : option A) (y : option A) : option A :=
  match x with Some _ => x | None => y end.

Definition matcher := (mstate -> option captures) -> mstate -> option captures.

(** The greedy loop of [r*] over the matcher [m] of [r]: one more
    iteration first, the continuation when that fails.  An iteration that
    consumes nothing is rejected, as RepeatMatcher does, so that at most
    [n] iterations fit in [n] remaining code units. *)
Fixpoint star_loop (m : matcher) (k : mstate -> option captures)
    (n : nat) (st0 : mstate) : option captures :=
  match n with
  | O => k st0
  | S n' =>
      or_else
        (m (fun st1 => if progressed st0 st1 then star_loop m k n' st1 else None)
           st0)
        (k st0)
  end.

(** [rmatch r k st] matches [r] at [st] and hands the state it reaches to
    the continuation [k]; when [k] fails the matcher backtracks into [r].
    Quantifiers are greedy. *)
Fixpoint rmatch (r : regex) (k : mstate -> option captures) (st : mstate)
  : option captures :=
  match r with
  | Empty => k st
  | Class p =>
      match rest st with
      | c :: t => if p c then k (advance st t) else None
      | [] => None
      end
  | Chars s =>
      match Str.strip_prefix s (rest st) with
      | Some t => k (advance st t)
      | None => None
      end
  | Seq r1 r2 => rmatch r1 (rmatch r2 k) st
  | Opt r1 =>
      or_else
        (rmatch r1 (fun st1 => if progressed st st1 then k st1 else None) st)
        (k st)
  | Star r1 => star_loop (rmatch r1) k (List.length (rest st)) st
  | Group n r1 =>
      rmatch r1
        (fun st1 =>
           let taken := (List.length (rest st) - List.length (rest st1))%nat in
           k {| rest := rest st1;
                caps := (n, firstn taken (rest st)) :: caps st1 |})
        st
  | Eos =>
      match rest st with
      | [] => k st
      | _ :: _ => None
      end
  end.

Definition Cat (rs : list regex) : regex := fold_right Seq Empty rs.

Definition match_here (r : regex) (s : jsstring) : option captures :=
  rmatch r (fun st => Some (caps st)) {| rest := s; caps := [] |}.

(** The match object: [index] and the numbered groups. *)
Record MatchResult := { index : nat; groups : captures }.

(** [exec] of a regular expression without the global flag: the match at
    the smallest start position, every position up to the end included. *)
Fixpoint exec_from (r : regex) (i : nat) (s : jsstring) : option MatchResult :=
  match match_here r s with
  | Some c => Some {| index := i; groups := c |}
  | None =>
      match s with
      | [] => None
      | _ :: s' => exec_from r (S i) s'
      end
  end.

Definition exec (r : regex) (s : jsstring) : option MatchResult :=
  exec_from r 0 s.

Fixpoint assoc (n : nat) (c : captures) : option jsstring :=
  match c with
  | [] => None
  | (m, v) :: c' => if Nat.eqb n m then Some v else assoc n c'
  end.

(** Whether group [n] is one of the groups of [r]. *)
Fixpoint has_group (n : nat) (r : regex) : bool :=
  match r with
  | Seq r1 r2 => has_group n r1 || has_group n r2
  | Opt r1 | Star r1 => has_group n r1
  | Group m r1 => Nat.eqb n m || has_group n r1
  | Empty | Class _ | Chars _ | Eos => false
  end.

(** [m[n]]: [None] is [undefined], a group that did not take part. *)
Definition group (m : MatchResult) (n : nat) : option jsstring :=
  assoc n (groups m).

End RegExp.

(** ** The query splitter *)

(** [Position] and [Range] of the editor package, as the plain records their
    [create] functions build. *)
Record Position := { line : Z; character : Z }.
Record Range := { range_start : Position; range_end : Position }.

Definition Position_create (l c : Z) : Position := {| line := l; character := c |}.
Definition Range_create (s e : Position) : Range := {| range_start := s; range_end := e |}.

Record FilterAndRange := { filter : jsstring; range : option Range }.

(** The pattern of the source, one component per list entry below:
    [\s?], [[#:\(]], [(?:line )?], group 1 around [\d*], an optional
    [[#:,]] followed by group 2 around [\d*], [\)?], [\s*] and [$]. *)
Definition LINE_COLON_PATTERN : RegExp.regex :=
  let open := RegExp.Class (Str.one_of "#:(") in
  let sep := RegExp.Class (Str.one_of "#:,") in
  let digits := RegExp.Star (RegExp.Class Str.is_digit) in
  RegExp.Cat
    [ RegExp.Opt (RegExp.Class Str.is_space);
      open;
      RegExp.Opt (RegExp.Chars (js "line "));
      RegExp.Group 1 digits;
      RegExp.Opt (RegExp.Seq sep (RegExp.Group 2 digits));
      RegExp.Opt (RegExp.Chars (js ")"));
      RegExp.Star (RegExp.Class Str.is_space);
      RegExp.Eos ].

(** [x ?? ''] *)
Definition or_empty (x : option jsstring) : jsstring :=
  match x with Some s => s | None => [] end.

(** The branch [Num.Finite line] is the one that [Number.isFinite(line)]
    guards; on the other paths [filter] and [range] keep their initial
    values, the expression and [undefined]. *)
Definition splitFilterAndRange (expression : jsstring) : FilterAndRange :=
  let initial := {| filter := expression; range := None |} in
  match RegExp.exec LINE_COLON_PATTERN expression with
  | Some patternMatch =>
      match Num.parseInt10 (or_empty (RegExp.group patternMatch 1)) with
      | Num.Finite line =>
          let lineNumber := if 0 <? line then Num.minus_one line else 0 in
          let startColumn :=
            match Num.parseInt10 (or_empty (RegExp.group patternMatch 2)) with
            | Num.Finite column => if 0 <? column then Num.minus_one column else 0
            | _ => 0
            end in
          let position := Position_create lineNumber startColumn in
          {| filter := Str.substr0 expression (RegExp.index patternMatch);
             range := Some (Range_create position position) |}
      | _ => initial
      end
  | None => initial
  end.

Definition point (l c : Z) : Range :=
  Range_create (Position_create l c) (Position_create l c).

(** ** The result comparator *)

(** The external fuzzy matcher returns no match, or a match whose score is a
    number; [Infinity] is the score of a perfect match. *)
Inductive FuzzyScore :=
| ScoreInfinity
| ScoreOf (z : Z).

Record URI := { uri_path : jsstring }.

(** The items that [compareItems] sorts are built by [toItem], which gives
    every item its label and its uri. *)
Record QuickOpenItem := { label : jsstring; uri : URI }.

Inductive Member := getLabel | getUri.

(** The part of the service's state that the comparator reads. *)
Record QuickFileOpenService :=
  { hideIgnoredFiles : bool; isOpen : bool; filterAndRange : FilterAndRange }.

Module Scores.
Definition max : Z := 1000.
Definition exact : Z := 500.
Definition partial : Z := 250.
End Scores.

(** Modelled from the spec: the constant [WHITESPACE_QUERY_SEPARATOR] of
    [../common/file-search-service] is not among the sources.  The
    specification has the normalized filter split on whitespace into tokens,
    that is by the separator "/\s+/"; this is
    [query.split(WHITESPACE_QUERY_SEPARATOR)]. *)
Definition split_WHITESPACE_QUERY_SEPARATOR (query : jsstring) : list jsstring :=
  Str.split_ws query.

Section Ranker.

(** Built-ins and collaborators that the comparator takes from its host:
    [String.prototype.toLowerCase], [String.prototype.localeCompare] and
    [fuzzy.match]. *)
Variable toLowerCase : jsstring -> jsstring.
Variable localeCompare : jsstring -> jsstring -> Z.
Variable fuzzy_match : jsstring -> jsstring -> option FuzzyScore.

Definition normalize (str : jsstring) : jsstring :=
  toLowerCase (Str.trim str).

(** One round of the [forEach] over the query parts, on the pair
    [(exactMatch, partialMatch)]. *)
Definition check_part (str : jsstring) (flags : bool * bool) (part : jsstring)
  : bool * bool :=
  let partMatches := Str.includes str part in
  (fst flags && partMatches, snd flags || partMatches).

(** The scores are integers; [+] is the addition of the source wherever
    that one is exact, on scores of up to 2^53. *)
Definition score (query str : jsstring) : Z :=
  let querySplit := split_WHITESPACE_QUERY_SEPARATOR query in
  let queryJoin := Str.join querySplit in
  let flags := fold_left (check_part str) querySplit (true, false) in
  let exactMatch := fst flags in
  let partialMatch := snd flags in
  let fuzzyMatch := fuzzy_match queryJoin str in
  let matchScore :=
    match fuzzyMatch with
    | Some ScoreInfinity => Scores.max
    | Some (ScoreOf s) => s
    | None => 0
    end in
  if exactMatch then matchScore + Scores.exact
  else if partialMatch then matchScore + Scores.partial
  else match fuzzyMatch with None => 0 | Some _ => matchScore end.

(** [a[member]()], and [path.toString()] of it when it is a [URI]. *)
Definition member_string (x : QuickOpenItem) (member : Member) : jsstring :=
  match member with
  | getLabel => label x
  | getUri => uri_path (uri x)
  end.

(** [compareItems] calls itself; [fuel] bounds the depth of the calls and
    [None] is the answer of a call that ran out of it. *)
Fixpoint compareItems (fuel : nat) (this : QuickFileOpenService)
    (a b : QuickOpenItem) (member : Member) : option Z :=
  match fuel with
  | O => None
  | S fuel' =>
      let query := normalize (filter (filterAndRange this)) in
      let itemA := normalize (member_string a member) in
      let itemB := normalize (member_string b member) in
      let scoreA := score query itemA in
      let scoreB := score query itemB in
      if scoreA =? scoreB then
        let indexA := Str.indexOf itemA query in
        let indexB := Str.indexOf itemB query in
        if indexA =? indexB then
          if negb (Str.length itemA =? Str.length itemB) then
            Some (if Str.length itemA <? Str.length itemB then -1 else 1)
          else
            let comparison := localeCompare itemB itemA in
            if comparison =? 0 then
              match member with
              | getUri => Some 0
              | getLabel => compareItems fuel' this a b getUri
              end
            else Some (localeCompare itemB itemA)
        else Some (indexA - indexB)
      else Some (scoreB - scoreA)
  end.

(** The strings that one call works on: the normalized query, and the
    normalized member of an item. *)
Definition query_of (this : QuickFileOpenService) : jsstring :=
  normalize (filter (filterAndRange this)).

Definition key_of (x : QuickOpenItem) (member : Member) : jsstring :=
  normalize (member_string x member).

End Ranker.

(** ** Instances of the host's primitives, for evaluating the comparator *)

Module Host.

(** [toLowerCase] on ASCII strings. *)
Definition toLowerCase (s : jsstring) : jsstring :=
  map (fun c => if ((65 <=? c) && (c <=? 90))%N then (c + 32)%N else c) s.

(** A [localeCompare] that orders strings by their code units. *)
Fixpoint localeCompare (s t : jsstring) : Z :=
  match s, t with
  | [], [] => 0
  | [], _ :: _ => -1
  | _ :: _, [] => 1
  | c :: s', d :: t' =>
      if (c <? d)%N then -1 else if (d <? c)%N then 1 else localeCompare s' t'
  end.

(** The scoring loop of the fuzzy package: the characters of the pattern
    have to occur in order in the string, a run of [n] consecutive hits
    adds [1 + 3 + ... + (2^n - 1)], and a string equal to the pattern has
    the score [Infinity]. *)
Fixpoint fuzzy_scan (pattern str : jsstring) (currScore totalScore : Z)
  : option Z :=
  match str with
  | [] => match pattern with [] => Some totalScore | _ :: _ => None end
  | ch :: str' =>
      match pattern with
      | p :: pattern' =>
          if (ch =? p)%N
          then let curr := currScore + (1 + currScore) in
               fuzzy_scan pattern' str' curr (totalScore + curr)
          else fuzzy_scan pattern str' 0 totalScore
      | [] => fuzzy_scan [] str' 0 totalScore
      end
  end.

Definition fuzzy_match (pattern str : jsstring) : option FuzzyScore :=
  let compareString := toLowerCase str in
  let pattern := toLowerCase pattern in
  match fuzzy_scan pattern compareString 0 0 with
  | Some totalScore =>
      Some (if Str.eqb compareString pattern then ScoreInfinity
            else ScoreOf totalScore)
  | None => None
  end.

Definition compareItems :=
  compareItems toLowerCase localeCompare fuzzy_match.

Definition score := score fuzzy_match.

Definition service (q : string) : QuickFileOpenService :=
  {| hideIgnoredFiles := true; isOpen := true;
     filterAndRange := {| filter := js q; range := None |} |}.

Definition item (name dir : string) : QuickOpenItem :=
  {| label := js name; uri := {| uri_path := js (dir ++ "/" ++ name) |} |}.

End Host.

(** ** The properties, in the words of the specification *)

(** The fuzzy contribution to a score: the score of the match, [Infinity]
    counted as the maximum, and nothing without a match. *)
Definition fuzzy_contribution (m : option FuzzyScore) : Z :=
  match m with
  | Some ScoreInfinity => 1000
  | Some (ScoreOf s) => s
  | None => 0
  end.

(** The score as the specification words it: the exact bonus when every
    token of the filter occurs in the label, the partial bonus when some but
    not all do. *)
Definition spec_score (fuzzy_match : jsstring -> jsstring -> option FuzzyScore)
    (query str : jsstring) : Z :=
  let tokens := split_WHITESPACE_QUERY_SEPARATOR query in
  let fuzzy := fuzzy_contribution (fuzzy_match (Str.join tokens) str) in
  if forallb (Str.includes str) tokens then fuzzy + 500
  else if existsb (Str.includes str) tokens then fuzzy + 250
  else fuzzy.

(** A negative answer of the comparator puts its first argument first. *)
Definition sorts_first (result : option Z) : Prop :=
  exists r, result = Some r /\ r < 0.

Definition sorts_last (result : option Z) : Prop :=
  exists r, result = Some r /\ 0 < r.

Definition is_open_mark (c : N) : bool := Str.one_of "#:(" c.

(** The line token of the trailing location suffix, when the expression has
    such a suffix. *)
Definition line_token (expression : jsstring) : option jsstring :=
  match RegExp.exec LINE_COLON_PATTERN expression with
  | Some patternMatch => Some (or_empty (RegExp.group patternMatch 1))
  | None => None
  end.

(** No finite line number is recognized at the end of the expression: it has
    no suffix, or the line token of the suffix does not parse to one. *)
Definition no_finite_line (expression : jsstring) : Prop :=
  match line_token expression with
  | Some token => Num.isFinite (Num.parseInt10 token) = false
  | None => True
  end.

(** The answer for an expression without a location. *)
Definition unsplit (expression : jsstring) : FilterAndRange :=
  {| filter := expression; range := None |}.

(** ** Words for the further properties of the splitter *)

(** Whether the last code unit of a string is white space. *)
Fixpoint ends_in_space (s : jsstring) : bool :=
  match s with
  | [] => false
  | [c] => Str.is_space c
  | _ :: s' => ends_in_space s'
  end.

Definition is_separator (c : N) : bool := Str.one_of "#:," c.

(** The 0-based line or column for the 1-based number [v] that was read. *)
Definition zero_based (v : Z) : Z := Z.max 0 (v - 1).

(** ** Words for the further properties of the comparator *)

Section RankerWords.

Variable toLowerCase : jsstring -> jsstring.
Variable localeCompare : jsstring -> jsstring -> Z.
Variable fuzzy_match : jsstring -> jsstring -> option FuzzyScore.

(** What one call of [compareItems] finds on the strings of its key, before
    it falls back to the other key: the difference of the scores, else of
    the indexes, else -1 or 1 for the lengths, else the answer of
    [localeCompare]; 0 when all of them tie. *)
Definition key_compare (this : QuickFileOpenService) (a b : QuickOpenItem)
    (member : Member) : Z :=
  let q := query_of toLowerCase this in
  let itemA := key_of toLowerCase a member in
  let itemB := key_of toLowerCase b member in
  if score fuzzy_match q itemA =? score fuzzy_match q itemB then
    if Str.indexOf itemA q =? Str.indexOf itemB q then
      if negb (Str.length itemA =? Str.length itemB) then
        if Str.length itemA <? Str.length itemB then -1 else 1
      else localeCompare itemB itemA
    else Str.indexOf itemA q - Str.indexOf itemB q
  else score fuzzy_match q itemB - score fuzzy_match q itemA.

End RankerWords.

(** ** The dialog: [open], [onType] and the handler of the search results *)

Definition filterAndRangeDefault : FilterAndRange :=
  {| filter := []; range := None |}.

(** [open()]: the state that it leaves and the text that it hands to
    [quickOpenService.open]. *)
Definition open (this : QuickFileOpenService) : QuickFileOpenService * jsstring :=
  let this' :=
    if isOpen this then
      {| hideIgnoredFiles := negb (hideIgnoredFiles this);
         isOpen := isOpen this;
         filterAndRange := filterAndRange this |}
    else
      {| hideIgnoredFiles := true;
         isOpen := true;
         filterAndRange := filterAndRangeDefault |} in
  (this', filter (filterAndRange this')).

(** [onClose] of the options. *)
Definition onClose (this : QuickFileOpenService) : QuickFileOpenService :=
  {| hideIgnoredFiles := hideIgnoredFiles this;
     isOpen := false;
     filterAndRange := filterAndRange this |}.

(** [n] presses of the keyboard shortcut in a row. *)
Definition opens (n : nat) (this : QuickFileOpenService) : QuickFileOpenService :=
  Nat.iter n (fun s => fst (open s)) this.

(** The [selection] of [buildOpenerOptions()]. *)
Definition buildOpenerOptions (this : QuickFileOpenService) : option Range :=
  range (filterAndRange this).

Record QuickOpenGroupItemOptions :=
  { groupLabel : option jsstring; showBorder : bool }.

(** The options of [fileSearchService.find]. *)
Record SearchOptions :=
  { rootUris : list jsstring;
    fuzzyMatch : bool;
    limit : Z;
    useGitIgnore : bool;
    excludePatterns : option (list jsstring) }.

(** [set.has(s)] on a [Set] of strings, kept as the list of its elements in
    the order of their insertion. *)
Definition set_has (set : list jsstring) (s : jsstring) : bool :=
  existsb (Str.eqb s) set.

Definition set_add (set : list jsstring) (s : jsstring) : list jsstring :=
  if set_has set s then set else set ++ [s].

(** What the dialog takes from the services injected into it, for a class
    [Uri] of uris: the methods of the uris, of the label provider and of
    the workspace service, [fuzzy.test], the keys of the preference
    [files.exclude], and [Array.prototype.sort]. *)
Record Services (Uri : Type) :=
  { uri_toString : Uri -> jsstring;
    uri_scheme : Uri -> jsstring;
    uri_path_toString : Uri -> jsstring;
    uri_parent : Uri -> Uri;
    uri_displayName : Uri -> jsstring;
    new_URI : jsstring -> Uri;
    getName : Uri -> jsstring;
    getLongName : Uri -> jsstring;
    getIcon : Uri -> jsstring;
    isMultiRootWorkspaceOpened : bool;
    getWorkspaceRootUri : Uri -> option Uri;
    fuzzy_test : jsstring -> jsstring -> bool;
    files_exclude : list jsstring;
    array_sort : forall A : Type, (A -> A -> Z) -> list A -> list A }.

Arguments uri_toString {Uri}.
Arguments uri_scheme {Uri}.
Arguments uri_path_toString {Uri}.
Arguments uri_parent {Uri}.
Arguments uri_displayName {Uri}.
Arguments new_URI {Uri}.
Arguments getName {Uri}.
Arguments getLongName {Uri}.
Arguments getIcon {Uri}.
Arguments isMultiRootWorkspaceOpened {Uri}.
Arguments getWorkspaceRootUri {Uri}.
Arguments fuzzy_test {Uri}.
Arguments files_exclude {Uri}.
Arguments array_sort {Uri} _ {A}.

Section Dialog.

Variable Uri : Type.
Variable services : Services Uri.
Variable toLowerCase : jsstring -> jsstring.
Variable localeCompare : jsstring -> jsstring -> Z.
Variable fuzzy_match : jsstring -> jsstring -> option FuzzyScore.

(** The options of an item of the list, a [QuickOpenItem] or, with [group],
    a [QuickOpenGroupItem]; [None] is [undefined].  The option [run], a
    closure, is left out: it opens the uri of an item that has one, and
    does nothing for the other item. *)
Record QuickOpenItemOptions :=
  { opt_label : option jsstring;
    opt_iconClass : option jsstring;
    opt_description : option jsstring;
    opt_tooltip : option jsstring;
    opt_uri : option Uri;
    opt_hidden : option bool;
    opt_group : option QuickOpenGroupItemOptions }.

Definition toItem (uriOrString : Uri + jsstring)
    (group : option QuickOpenGroupItemOptions) : QuickOpenItemOptions :=
  let uri := match uriOrString with
             | inl u => u
             | inr s => new_URI services s
             end in
  let description := getLongName services (uri_parent services uri) in
  let description :=
    if isMultiRootWorkspaceOpened services then
      match getWorkspaceRootUri services uri with
      | Some rootUri =>
          uri_displayName services rootUri ++ [32%N; 8226%N; 32%N] ++ description
      | None => description
      end
    else description in
  let icon := getIcon services uri in
  let iconClass :=
    if Str.eqb icon [] then None else Some (icon ++ js " file-icon") in
  {| opt_label := Some (getName services uri);
     opt_iconClass := iconClass;
     opt_description := Some description;
     opt_tooltip := Some (getLongName services uri);
     opt_uri := Some uri;
     opt_hidden := Some false;
     opt_group := group |}.

Definition toNoResultsItem : QuickOpenItemOptions :=
  {| opt_label := Some (js "No matching results");
     opt_iconClass := None;
     opt_description := None;
     opt_tooltip := None;
     opt_uri := None;
     opt_hidden := None;
     opt_group := None |}.

(** The state of the loop over the locations: [alreadyCollected] and
    [recentlyUsedItems]. *)
Definition Collected : Type := list jsstring * list QuickOpenItemOptions.

(** One round of the loop of [onType] over the locations. *)
Definition visit_location (fileFilter : jsstring) (state : Collected)
    (location : Uri) : Collected :=
  let alreadyCollected := fst state in
  let recentlyUsedItems := snd state in
  let uriString := uri_toString services location in
  if Str.eqb (uri_scheme services location) (js "file")
     && negb (set_has alreadyCollected uriString)
     && fuzzy_test services fileFilter uriString
  then
    let item :=
      toItem (inl location)
        (Some {| groupLabel :=
                   if (List.length recentlyUsedItems =? 0)%nat
                   then Some (js "recently opened") else None;
                 showBorder := false |}) in
    (set_add alreadyCollected uriString, recentlyUsedItems ++ [item])
  else state.

Definition collect_recent (fileFilter : jsstring) (locations : list Uri)
  : Collected :=
  fold_left (visit_location fileFilter) (rev locations) ([], []).

(** What [onType] does with the acceptor and the search service: it calls
    [find] and leaves the results to the handler, which keeps the two
    collections of the loop, or it calls the acceptor, or neither. *)
Inductive Typed :=
| Searching (searchPattern : jsstring) (options : SearchOptions)
    (collected : Collected)
| Accepted (items : list QuickOpenItemOptions)
| Silent.

Definition onType (this : QuickFileOpenService) (lookFor : jsstring)
    (roots : list Uri) (locations : list Uri) : QuickFileOpenService * Typed :=
  let this' :=
    {| hideIgnoredFiles := hideIgnoredFiles this;
       isOpen := isOpen this;
       filterAndRange := splitFilterAndRange lookFor |} in
  let fileFilter := filter (filterAndRange this') in
  let collected := collect_recent fileFilter locations in
  if 0 <? Str.length fileFilter then
    (this',
     Searching fileFilter
       {| rootUris := map (uri_toString services) roots;
          fuzzyMatch := true;
          limit := 200;
          useGitIgnore := hideIgnoredFiles this';
          excludePatterns :=
            if hideIgnoredFiles this' then Some (files_exclude services)
            else None |}
       collected)
  else if negb (List.length roots =? 0)%nat then
    (this', Accepted (snd collected))
  else (this', Silent).

(** The item as [compareItems] reads it.  Every item that is sorted was
    built by [toItem] and has its label and its uri; the empty strings
    stand for the members that the source asserts to be there. *)
Definition candidate (item : QuickOpenItemOptions) : QuickOpenItem :=
  {| label := or_empty (opt_label item);
     uri := {| uri_path :=
                 match opt_uri item with
                 | Some u => uri_path_toString services u
                 | None => []
                 end |} |}.

(** [(a, b) => this.compareItems(a, b)]; two nested calls are all that
    [compareItems] needs. *)
Definition compare_listed (this : QuickFileOpenService)
    (a b : QuickOpenItemOptions) : Z :=
  match compareItems toLowerCase localeCompare fuzzy_match 2 this
          (candidate a) (candidate b) getLabel with
  | Some r => r
  | None => 0
  end.

(** One round of the loop of the handler over the results. *)
Definition visit_result (state : Collected) (fileUri : jsstring) : Collected :=
  let alreadyCollected := fst state in
  let fileSearchResultItems := snd state in
  if negb (set_has alreadyCollected fileUri) then
    (set_add alreadyCollected fileUri,
     fileSearchResultItems ++ [toItem (inr fileUri) None])
  else state.

(** The handler of the results of the search: what it gives to the
    acceptor, [None] when it does not call it.  [cancelled] is
    [token.isCancellationRequested]; [collected] are the collections that
    [onType] left. *)
Definition handler (this : QuickFileOpenService) (cancelled : bool)
    (collected : Collected) (results : list jsstring)
  : option (list QuickOpenItemOptions) :=
  if cancelled then None
  else if (List.length results <=? 0)%nat then Some [toNoResultsItem]
  else
    let recentlyUsedItems := snd collected in
    let fileSearchResultItems :=
      snd (fold_left visit_result results (fst collected, [])) in
    let sortedResults :=
      array_sort services (compare_listed this) fileSearchResultItems in
    let sortedResults :=
      match sortedResults with
      | first :: others =>
          toItem
            (match opt_uri first with Some u => inl u | None => inr [] end)
            (Some {| groupLabel := Some (js "file results");
                     showBorder := negb (List.length recentlyUsedItems =? 0)%nat |})
          :: others
      | [] => []
      end in
    Some (recentlyUsedItems ++ sortedResults).

(** [openFile]: the view state that it restores in the widget, if any.
    [closedEditorsStack] has the uri and the view state of the editors
    closed before; [isEditorWidget] says whether the opener answered an
    [EditorWidget]. *)
Definition openFile_restores (ViewState : Type) (this : QuickFileOpenService)
    (uri : Uri) (closedEditorsStack : list (Uri * ViewState))
    (isEditorWidget : bool) : option ViewState :=
  let selection := buildOpenerOptions this in
  let closedEditor :=
    find (fun editor => Str.eqb (uri_path_toString services (fst editor))
                          (uri_path_toString services uri))
         closedEditorsStack in
  match closedEditor, selection with
  | Some editor, None => if isEditorWidget then Some (snd editor) else None
  | _, _ => None
  end.

(** The uri of an item, as a string. *)
Definition listed_uri (item : QuickOpenItemOptions) : option jsstring :=
  option_map (uri_toString services) (opt_uri item).

End Dialog.

Arguments opt_label {Uri}.
Arguments opt_iconClass {Uri}.
Arguments opt_description {Uri}.
Arguments opt_tooltip {Uri}.
Arguments opt_uri {Uri}.
Arguments opt_hidden {Uri}.
Arguments opt_group {Uri}.
Arguments toItem {Uri}.
Arguments toNoResultsItem {Uri}.
Arguments visit_location {Uri}.
Arguments collect_recent {Uri}.
Arguments onType {Uri}.
Arguments candidate {Uri}.
Arguments compare_listed {Uri}.
Arguments visit_result {Uri}.
Arguments handler {Uri}.
Arguments openFile_restores {Uri} _ {ViewState}.
Arguments listed_uri {Uri}.
Arguments Searching {Uri}.
Arguments Accepted {Uri}.
Arguments Silent {Uri}.

Definition jsstring_eq_dec : forall s t : jsstring, {s = t} + {s <> t} :=
  list_eq_dec N.eq_dec.

(** The locations that the loop of [onType] keeps. *)
Definition wanted_location {Uri : Type} (services : Services Uri)
    (fileFilter : jsstring) (location : Uri) : bool :=
  Str.eqb (uri_scheme services location) (js "file")
  && fuzzy_test services fileFilter (uri_toString services location).

(** The group of the first file result. *)
Definition file_results_group (recentlyUsed : nat) : QuickOpenGroupItemOptions :=
  {| groupLabel := Some (js "file results");
     showBorder := negb (recentlyUsed =? 0)%nat |}.

(** ** Instances of the services, for evaluating the dialog *)

Module HostDialog.

Fixpoint insert {A : Type} (cmp : A -> A -> Z) (x : A) (l : list A) : list A :=
  match l with
  | [] => [x]
  | y :: l' => if cmp x y <=? 0 then x :: l else y :: insert cmp x l'
  end.

(** A stable sort. *)
Definition sort (A : Type) (cmp : A -> A -> Z) (l : list A) : list A :=
  fold_right (insert cmp) [] l.

(** Uris that are their own strings, names and paths, under the scheme that
    the string starts with. *)
Definition services : Services jsstring :=
  {| uri_toString := fun u => u;
     uri_scheme := fun u => if Str.startsWith u (js "file:") then js "file" else js "git";
     uri_path_toString := fun u => u;
     uri_parent := fun u => u;
     uri_displayName := fun u => u;
     new_URI := fun s => s;
     getName := fun u => u;
     getLongName := fun u => u;
     getIcon := fun _ => [];
     isMultiRootWorkspaceOpened := false;
     getWorkspaceRootUri := fun _ => None;
     fuzzy_test := fun pattern s =>
       match Host.fuzzy_match pattern s with Some _ => true | None => false end;
     files_exclude := [js "**/.git"];
     array_sort := sort |}.

Definition onType :=
  onType services.

Definition handler :=
  handler services Host.toLowerCase Host.localeCompare Host.fuzzy_match.

End HostDialog.

(** The group of a recently used item: only the first one has a label. *)
Definition recently_opened_group (first : bool) : QuickOpenGroupItemOptions :=
  {| groupLabel := if first then Some (js "recently opened") else None;
     showBorder := false |}.

(** * Facts about the matcher *)

Section MatcherFacts.

Import RegExp.

Lemma strip_prefix_app p : forall s t,
  Str.strip_prefix p s = Some t -> s = p ++ t.
Proof.
  induction p as [|c p IH]; intros s t H; simpl in H.
  - now inversion H.
  - destruct s as [|d s]; [discriminate|].
    destruct (N.eqb_spec c d); [|discriminate].
    subst d. simpl. f_equal. now apply IH.
Qed.

Lemma progressed_cons st c t :
  rest st = c :: t -> progressed st (advance st t) = true.
Proof.
  intros R. unfold progressed. rewrite R. simpl.
  apply Nat.ltb_lt. lia.
Qed.

(** What the continuation of [p*] receives: the state after some run of
    code units of the class [p], captures untouched. *)
Lemma star_class_inv p k : forall n st c,
  star_loop (rmatch (Class p)) k n st = Some c ->
  exists g t, rest st = g ++ t /\ Forall (fun x => p x = true) g /\
              k (advance st t) = Some c.
Proof.
  assert (base : forall st c, k st = Some c ->
    exists g t, rest st = g ++ t /\ Forall (fun x => p x = true) g /\
                k (advance st t) = Some c).
  { intros [r0 c0] c H. exists [], r0. simpl. auto. }
  induction n as [|n IH]; intros st c H; [now apply base|].
  cbn [star_loop] in H. unfold or_else in H.
  destruct (rmatch (Class p) _ st) as [c1|] eqn:E; [|now apply base].
  inversion H; subst c1. cbn [rmatch] in E.
  destruct (rest st) as [|x t] eqn:R; [discriminate|].
  destruct (p x) eqn:Px; [|discriminate].
  rewrite (progressed_cons st x t R) in E.
  destruct (IH _ _ E) as (g & t' & Hr & Hg & Hk).
  simpl in Hr. exists (x :: g), t'. repeat split.
  - simpl. now rewrite Hr.
  - now constructor.
  - exact Hk.
Qed.

(** Whatever a matcher answers was answered by its continuation, at a
    state further in the input whose captures differ from the initial ones
    only on the groups of the expression. *)
Lemma rmatch_sound : forall r k st c,
  rmatch r k st = Some c ->
  exists st', k st' = Some c /\
    (exists pre, rest st = pre ++ rest st') /\
    (forall n, has_group n r = false -> assoc n (caps st') = assoc n (caps st)).
Proof.
  assert (stay : forall r (k : mstate -> option captures) st c,
    k st = Some c ->
    exists st', k st' = Some c /\
      (exists pre, rest st = pre ++ rest st') /\
      (forall n, has_group n r = false -> assoc n (caps st') = assoc n (caps st))).
  { intros r k st c H. exists st. split; [exact H|]. split; [now exists []|auto]. }
  induction r as [|p|s|r1 IH1 r2 IH2|r1 IH1|r1 IH1|m r1 IH1|];
    intros k st c H; simpl in H.
  - now apply stay.
  - destruct (rest st) as [|x t] eqn:R; [discriminate|].
    destruct (p x); [|discriminate].
    exists (advance st t). split; [exact H|]. split; [now exists [x]|auto].
  - destruct (Str.strip_prefix s (rest st)) as [t|] eqn:E; [|discriminate].
    exists (advance st t). split; [exact H|].
    split; [exists s; now apply strip_prefix_app|auto].
  - destruct (IH1 _ _ _ H) as (st1 & H1 & (pre1 & R1) & C1).
    destruct (IH2 _ _ _ H1) as (st2 & H2 & (pre2 & R2) & C2).
    exists st2. split; [exact H2|]. split.
    + exists (pre1 ++ pre2). now rewrite R1, R2, app_assoc.
    + intros n Hn. simpl in Hn. apply orb_false_iff in Hn as [Hn1 Hn2].
      now rewrite C2, C1.
  - unfold or_else in H.
    destruct (rmatch r1 _ st) as [c1|] eqn:E; [|now apply (stay (Opt r1))].
    inversion H; subst c1.
    destruct (IH1 _ _ _ E) as (st1 & H1 & R1 & C1).
    destruct (progressed st st1); [|discriminate].
    exists st1. auto.
  - revert H. generalize (List.length (rest st)) as n. intros n.
    revert st c.
    induction n as [|n IHn]; intros st c H; simpl in H;
      [now apply (stay (Star r1))|].
    unfold or_else in H.
    destruct (rmatch r1 _ st) as [c1|] eqn:E; [|now apply (stay (Star r1))].
    inversion H; subst c1.
    destruct (IH1 _ _ _ E) as (st1 & H1 & (pre1 & R1) & C1).
    destruct (progressed st st1); [|discriminate].
    destruct (IHn _ _ H1) as (st2 & H2 & (pre2 & R2) & C2).
    exists st2. split; [exact H2|]. split.
    + exists (pre1 ++ pre2). now rewrite R1, R2, app_assoc.
    + intros j Hj. rewrite C2 by exact Hj. now apply C1.
  - destruct (IH1 _ _ _ H) as (st1 & H1 & R1 & C1).
    eexists. split; [exact H1|]. simpl. split; [exact R1|].
    intros n Hn. apply orb_false_iff in Hn as [Hn1 Hn2].
    rewrite Hn1. now apply C1.
  - destruct (rest st) eqn:R; [|discriminate]. rewrite <- R.
    now apply (stay Eos).
Qed.

Lemma rmatch_seq r1 r2 k st :
  rmatch (Seq r1 r2) k st = rmatch r1 (rmatch r2 k) st.
Proof. reflexivity. Qed.

Lemma rmatch_class p k st :
  rmatch (Class p) k st =
  match rest st with
  | c :: t => if p c then k (advance st t) else None
  | [] => None
  end.
Proof. reflexivity. Qed.

Lemma rmatch_opt r k st :
  rmatch (Opt r) k st =
  or_else (rmatch r (fun st1 => if progressed st st1 then k st1 else None) st)
          (k st).
Proof. reflexivity. Qed.

(** A group around [p*] captures a run of code units of the class [p]. *)
Lemma rmatch_group_star_class n p k st c :
  rmatch (Group n (Star (Class p))) k st = Some c ->
  exists g t, rest st = g ++ t /\ Forall (fun x => p x = true) g /\
              k {| rest := t; caps := (n, g) :: caps st |} = Some c.
Proof.
  intros H. cbn [rmatch] in H.
  apply star_class_inv in H as (g & t & R & Hg & Hk).
  exists g, t. repeat split; trivial.
  cbn [advance rest caps] in Hk. rewrite R in Hk.
  replace (List.length (g ++ t) - List.length t)%nat with (List.length g + 0)%nat in Hk
    by (rewrite length_app; lia).
  now rewrite firstn_app_2, app_nil_r in Hk.
Qed.

(** The match found by [exec] starts at [index], where the expression
    matches, and at no position before it. *)
Lemma exec_from_some r : forall s i m,
  exec_from r i s = Some m ->
  exists j, index m = (i + j)%nat /\ (j <= List.length s)%nat /\
    match_here r (skipn j s) = Some (groups m) /\
    forall j', (j' < j)%nat -> match_here r (skipn j' s) = None.
Proof.
  induction s as [|x s IH]; intros i m H; simpl in H.
  - destruct (match_here r []) as [c|] eqn:E; [|discriminate].
    inversion H; subst m. exists 0%nat. simpl. repeat split; trivial; lia.
  - destruct (match_here r (x :: s)) as [c|] eqn:E.
    + inversion H; subst m. exists 0%nat. simpl. repeat split; trivial; lia.
    + destruct (IH _ _ H) as (j & Hi & Hj & Hm & Hbefore).
      exists (S j). simpl. repeat split; trivial; try lia.
      intros [|j'] Hlt; simpl; [exact E|apply Hbefore; lia].
Qed.

Lemma exec_from_none r : forall s i,
  (forall j, (j <= List.length s)%nat -> match_here r (skipn j s) = None) ->
  exec_from r i s = None.
Proof.
  induction s as [|x s IH]; intros i H; simpl;
    pose proof (H 0%nat (Nat.le_0_l _)) as H0; simpl in H0; rewrite H0.
  - reflexivity.
  - apply IH. intros j Hj. apply (H (S j)). simpl. lia.
Qed.

End MatcherFacts.

(** * Facts about the pattern of the splitter *)

Section PatternFacts.

Import RegExp.

Lemma open_mark_expected r k st :
  match rest st with [] => True | x :: _ => is_open_mark x = false end ->
  rmatch (Seq (Class (Str.one_of "#:(")) r) k st = None.
Proof.
  rewrite rmatch_seq, rmatch_class. destruct (rest st) as [|x t]; [reflexivity|].
  unfold is_open_mark. now intros ->.
Qed.

(** The pattern cannot match where neither the first code unit nor, after
    one white space, the second one is an opening mark. *)
Lemma pattern_needs_open_mark s :
  Forall (fun c => is_open_mark c = false) s ->
  match_here LINE_COLON_PATTERN s = None.
Proof.
  intros F. unfold match_here, LINE_COLON_PATTERN, Cat.
  cbn [fold_right]. rewrite rmatch_seq, rmatch_opt.
  rewrite (open_mark_expected _ _ {| rest := s; caps := [] |})
    by (destruct F; simpl; trivial).
  rewrite rmatch_class. cbn [rest]. destruct s as [|x s]; [reflexivity|].
  destruct (Str.is_space x); [|reflexivity].
  destruct (progressed _ _); [|reflexivity].
  rewrite open_mark_expected; [reflexivity|].
  inversion F as [|? ? _ Fs]; subst. destruct Fs; simpl; trivial.
Qed.

(** The first group of a match is a run of decimal digits of the input. *)
Lemma pattern_group_1 s c :
  match_here LINE_COLON_PATTERN s = Some c ->
  exists pre g post, s = pre ++ g ++ post /\
    assoc 1 c = Some g /\ Forall (fun x => Str.is_digit x = true) g.
Proof.
  unfold match_here, LINE_COLON_PATTERN, Cat. cbn [fold_right]. intros H.
  rewrite rmatch_seq in H.
  apply rmatch_sound in H as (st1 & H & (pre1 & R1) & _).
  rewrite rmatch_seq in H.
  apply rmatch_sound in H as (st2 & H & (pre2 & R2) & _).
  rewrite rmatch_seq in H.
  apply rmatch_sound in H as (st3 & H & (pre3 & R3) & _).
  rewrite rmatch_seq in H.
  apply rmatch_group_star_class in H as (g & t & R4 & Hg & H).
  apply rmatch_sound in H as (st5 & H & _ & C5).
  inversion H; subst c.
  exists (pre1 ++ pre2 ++ pre3), g, t. split; [|split; [|exact Hg]].
  - cbn [rest] in R1. now rewrite R1, R2, R3, R4, <- !app_assoc.
  - rewrite C5 by reflexivity. cbn [caps assoc]. reflexivity.
Qed.

End PatternFacts.

(** * The query splitter *)

Section SplitterFacts.

Import RegExp.

Lemma split_no_finite_line s :
  no_finite_line s -> splitFilterAndRange s = unsplit s.
Proof.
  unfold no_finite_line, line_token, splitFilterAndRange, unsplit.
  destruct (exec LINE_COLON_PATTERN s) as [m|]; [|reflexivity].
  destruct (Num.parseInt10 (or_empty (group m 1))); [reflexivity..|discriminate].
Qed.

Lemma no_open_mark_no_match s :
  Forall (fun c => is_open_mark c = false) s ->
  exec LINE_COLON_PATTERN s = None.
Proof.
  intros F. apply exec_from_none. intros j _.
  apply pattern_needs_open_mark.
  rewrite <- (firstn_skipn j s) in F. now apply Forall_app in F.
Qed.

Lemma no_digit_empty_token s m :
  Forall (fun c => Str.is_digit c = false) s ->
  exec LINE_COLON_PATTERN s = Some m ->
  group m 1 = Some [].
Proof.
  intros F E. apply exec_from_some in E as (j & _ & _ & M & _).
  apply pattern_group_1 in M as (pre & g & post & S & G & D).
  unfold group. rewrite G. f_equal.
  rewrite <- (firstn_skipn j s), S in F.
  apply Forall_app in F as [_ F]. apply Forall_app in F as [_ F].
  apply Forall_app in F as [F _].
  destruct g as [|x g]; [reflexivity|].
  inversion F as [|? ? Fx _]; inversion D as [|? ? Dx _]; congruence.
Qed.

(** Where a range comes out, the filter is the input up to the start of
    the suffix that the pattern matched. *)
Lemma split_with_range s rg :
  range (splitFilterAndRange s) = Some rg ->
  exists m, exec LINE_COLON_PATTERN s = Some m /\
    (index m <= List.length s)%nat /\
    filter (splitFilterAndRange s) = firstn (index m) s /\
    match_here LINE_COLON_PATTERN (skipn (index m) s) = Some (groups m) /\
    range_start rg = range_end rg.
Proof.
  unfold splitFilterAndRange.
  destruct (exec LINE_COLON_PATTERN s) as [m|] eqn:E; [|discriminate].
  destruct (Num.parseInt10 (or_empty (group m 1))); try discriminate.
  cbn [range filter]. intros H. inversion H; subst rg.
  exists m. apply exec_from_some in E as (j & Hi & Hj & M & _).
  simpl in Hi. subst j. repeat split; trivial.
Qed.

(** Below [2^53] a double holds every integer, and [x - 1] is exact. *)
Lemma minus_one_exact x : 0 < x <= 2 ^ 53 -> Num.minus_one x = x - 1.
Proof.
  intros Hx. unfold Num.minus_one, Num.round53.
  assert (L : Z.log2 (x - 1) - 52 <= 0).
  { destruct (Z.eq_dec x 1) as [->|]; [discriminate|].
    assert (Z.log2 (x - 1) < 53) by (apply Z.log2_lt_pow2; lia). lia. }
  now rewrite (proj2 (Z.leb_le _ _) L).
Qed.

(** A match with a finite line token gives a range, on the line before the
    one read, and at column 0 when the column token is missing or empty. *)
Lemma split_line_of_token s m l :
  exec LINE_COLON_PATTERN s = Some m ->
  Num.parseInt10 (or_empty (group m 1)) = Num.Finite l ->
  0 < l <= 2 ^ 53 ->
  exists rg, range (splitFilterAndRange s) = Some rg /\
    line (range_start rg) = l - 1 /\
    (or_empty (group m 2) = [] -> character (range_start rg) = 0).
Proof.
  intros E P Hl. unfold splitFilterAndRange. rewrite E, P.
  eexists. split; [reflexivity|]. cbn [range_start Range_create Position_create
    line character]. split.
  - rewrite (proj2 (Z.ltb_lt _ _) (proj1 Hl)). now apply minus_one_exact.
  - now intros ->.
Qed.

End SplitterFacts.

(** C4. A recognized line token, 1-based, becomes a 0-based line, and the
    column token, when there is one, a 0-based column, 0 otherwise: the
    inputs "foo.ts:42", "foo.ts:42:7" and "foo.ts:42,7" give the filter
    "foo.ts" and the points (41, 0), (41, 6) and (41, 6).  In general a line
    token that reads as [l], positive and within the integers that a double
    holds exactly, gives the line [l - 1], and a missing or empty column
    token the column 0. *)
Theorem split_line_and_column :
  splitFilterAndRange (js "foo.ts:42")
    = {| filter := js "foo.ts"; range := Some (point 41 0) |} /\
  splitFilterAndRange (js "foo.ts:42:7")
    = {| filter := js "foo.ts"; range := Some (point 41 6) |} /\
  splitFilterAndRange (js "foo.ts:42,7")
    = {| filter := js "foo.ts"; range := Some (point 41 6) |} /\
  (forall s m l,
     RegExp.exec LINE_COLON_PATTERN s = Some m ->
     Num.parseInt10 (or_empty (RegExp.group m 1)) = Num.Finite l ->
     0 < l <= 2 ^ 53 ->
     exists rg, range (splitFilterAndRange s) = Some rg /\
       line (range_start rg) = l - 1 /\
       (or_empty (RegExp.group m 2) = [] -> character (range_start rg) = 0)).
Proof.
  split; [vm_compute; reflexivity|].
  split; [vm_compute; reflexivity|].
  split; [vm_compute; reflexivity|].
  exact split_line_of_token.
Qed.

Lemma split_line_and_column_witness :
  exists rg, range (splitFilterAndRange (js "src/main.ts(line 120)")) = Some rg /\
    line (range_start rg) = 120 - 1 /\
    (or_empty None = [] -> character (range_start rg) = 0).
Proof.
  refine (proj2 (proj2 (proj2 split_line_and_column))
            (js "src/main.ts(line 120)")
            {| RegExp.index := 11; RegExp.groups := [(1%nat, js "120")] |}
            120 _ _ _).
  - vm_compute. reflexivity.
  - vm_compute. reflexivity.
  - vm_compute. split; [reflexivity|discriminate].
Defined.

(** C5. When no finite line number is recognized at the end of the input,
    the splitter answers the whole input as the filter, without a range; it
    is a total function, so it answers on every input.  That is the case of
    an input without any of the marks that open a suffix, and of an input
    without digits, such as one that ends in a bare mark: "foo.ts#" is
    answered unchanged. *)
Theorem split_without_line :
  (forall s, no_finite_line s -> splitFilterAndRange s = unsplit s) /\
  (forall s, Forall (fun c => is_open_mark c = false) s ->
             no_finite_line s /\ splitFilterAndRange s = unsplit s) /\
  (forall s, Forall (fun c => Str.is_digit c = false) s ->
             no_finite_line s /\ splitFilterAndRange s = unsplit s) /\
  splitFilterAndRange (js "foo.ts#")
    = {| filter := js "foo.ts#"; range := None |}.
Proof.
  split; [exact split_no_finite_line|].
  split; [|split; [|vm_compute; reflexivity]]; intros s F.
  - assert (N : no_finite_line s).
    { unfold no_finite_line, line_token.
      now rewrite (no_open_mark_no_match s F). }
    split; [exact N|now apply split_no_finite_line].
  - assert (N : no_finite_line s).
    { unfold no_finite_line, line_token.
      destruct (RegExp.exec LINE_COLON_PATTERN s) as [m|] eqn:E; [|exact I].
      now rewrite (no_digit_empty_token s m F E). }
    split; [exact N|now apply split_no_finite_line].
Qed.

Lemma split_without_line_witness :
  splitFilterAndRange (js "foo.ts:") = unsplit (js "foo.ts:") /\
  splitFilterAndRange (js "foo.ts") = unsplit (js "foo.ts") /\
  splitFilterAndRange (js "src/foo (") = unsplit (js "src/foo (").
Proof.
  split; [|split].
  - apply (proj1 split_without_line). vm_compute. reflexivity.
  - apply (proj1 (proj2 split_without_line)).
    vm_compute. repeat constructor.
  - apply (proj1 (proj2 (proj2 split_without_line))).
    vm_compute. repeat constructor.
Defined.

(** C6. The filter that the splitter answers is the whole input when no
    suffix is recognized, and otherwise the prefix of the input that ends
    where the matched suffix starts; a range, when there is one, starts and
    ends at the same position. *)
Theorem split_filter_is_prefix (s : jsstring) :
  (no_finite_line s /\ splitFilterAndRange s = unsplit s \/
   exists m, RegExp.exec LINE_COLON_PATTERN s = Some m /\
     (RegExp.index m <= List.length s)%nat /\
     filter (splitFilterAndRange s) = firstn (RegExp.index m) s /\
     s = filter (splitFilterAndRange s) ++ skipn (RegExp.index m) s /\
     RegExp.match_here LINE_COLON_PATTERN (skipn (RegExp.index m) s)
       = Some (RegExp.groups m)) /\
  (forall rg, range (splitFilterAndRange s) = Some rg ->
              range_start rg = range_end rg).
Proof.
  split.
  - destruct (range (splitFilterAndRange s)) as [rg|] eqn:R.
    + right. destruct (split_with_range s rg R) as (m & E & L & F & M & _).
      exists m. repeat split; trivial.
      rewrite F. symmetry. apply firstn_skipn.
    + left. assert (N : no_finite_line s).
      { revert R. unfold splitFilterAndRange, no_finite_line, line_token.
        destruct (RegExp.exec LINE_COLON_PATTERN s) as [m|]; [|trivial].
        destruct (Num.parseInt10 _); try reflexivity. discriminate. }
      split; [exact N|now apply split_no_finite_line].
  - intros rg R. now destruct (split_with_range s rg R) as (m & _ & _ & _ & _ & H).
Qed.

Lemma split_filter_is_prefix_witness :
  range_start (point 41 6) = range_end (point 41 6).
Proof.
  apply (proj2 (split_filter_is_prefix (js "foo.ts:42:7"))).
  vm_compute. reflexivity.
Defined.

(** * The result comparator *)

Section ScoreFacts.

Variable fuzzy_match : jsstring -> jsstring -> option FuzzyScore.

Lemma fold_check_part str : forall parts e p,
  fold_left (check_part str) parts (e, p)
  = (e && forallb (Str.includes str) parts,
     p || existsb (Str.includes str) parts).
Proof.
  induction parts as [|part parts IH]; intros e p; simpl.
  - now rewrite andb_true_r, orb_false_r.
  - unfold check_part at 2. simpl. rewrite IH.
    now rewrite andb_assoc, orb_assoc.
Qed.

Lemma includes_empty str : Str.includes str [] = true.
Proof. destruct str; reflexivity. Qed.

Lemma indexOf_empty str : Str.indexOf str [] = 0.
Proof. destruct str; reflexivity. Qed.

Lemma score_spec_score query str :
  score fuzzy_match query str = spec_score fuzzy_match query str.
Proof.
  unfold score, spec_score.
  rewrite fold_check_part. cbn [fst snd andb orb].
  destruct (forallb (Str.includes str) (split_WHITESPACE_QUERY_SEPARATOR query));
    [|destruct (existsb (Str.includes str) (split_WHITESPACE_QUERY_SEPARATOR query))];
    destruct (fuzzy_match _ str) as [[|z]|]; reflexivity.
Qed.

(** C3. The score of a label is the fuzzy contribution plus 500 when every
    token of the filter occurs in the label, plus 250 when some but not
    all of them do, and the fuzzy contribution alone otherwise; the
    contribution is 0 without a fuzzy match and 1000 for the score
    Infinity. *)
Theorem score_refines_spec :
  (forall query str, score fuzzy_match query str = spec_score fuzzy_match query str) /\
  fuzzy_contribution None = 0 /\
  fuzzy_contribution (Some ScoreInfinity) = Scores.max /\
  Scores.max = 1000.
Proof.
  split; [exact score_spec_score|repeat split].
Qed.

End ScoreFacts.

Section RankerFacts.

Variable toLowerCase : jsstring -> jsstring.
Variable localeCompare : jsstring -> jsstring -> Z.
Variable fuzzy_match : jsstring -> jsstring -> option FuzzyScore.

Local Notation "'compare'" := (compareItems toLowerCase localeCompare fuzzy_match).
Local Notation "'query'" := (query_of toLowerCase).
Local Notation "'key'" := (key_of toLowerCase).
Local Notation "'scored'" := (score fuzzy_match).

(** One call of the comparator, on the strings it works on. *)
Lemma compareItems_unfold fuel this a b member :
  compare (S fuel) this a b member =
  let q := query this in
  let itemA := key a member in
  let itemB := key b member in
  if scored q itemA =? scored q itemB then
    if Str.indexOf itemA q =? Str.indexOf itemB q then
      if negb (Str.length itemA =? Str.length itemB) then
        Some (if Str.length itemA <? Str.length itemB then -1 else 1)
      else if localeCompare itemB itemA =? 0 then
        match member with
        | getUri => Some 0
        | getLabel => compare fuel this a b getUri
        end
      else Some (localeCompare itemB itemA)
    else Some (Str.indexOf itemA q - Str.indexOf itemB q)
  else Some (scored q itemB - scored q itemA).
Proof. reflexivity. Qed.

Lemma scores_differ fuel this a b member :
  scored (query this) (key a member) <> scored (query this) (key b member) ->
  compare (S fuel) this a b member
  = Some (scored (query this) (key b member) - scored (query this) (key a member)).
Proof.
  intros H. rewrite compareItems_unfold. cbv zeta.
  now destruct (Z.eqb_spec (scored (query this) (key a member))
                           (scored (query this) (key b member))).
Qed.

Lemma indexes_differ fuel this a b member :
  scored (query this) (key a member) = scored (query this) (key b member) ->
  Str.indexOf (key a member) (query this) <> Str.indexOf (key b member) (query this) ->
  compare (S fuel) this a b member
  = Some (Str.indexOf (key a member) (query this)
          - Str.indexOf (key b member) (query this)).
Proof.
  intros Hs Hi. rewrite compareItems_unfold. cbv zeta.
  rewrite Hs, Z.eqb_refl.
  now destruct (Z.eqb_spec (Str.indexOf (key a member) (query this))
                           (Str.indexOf (key b member) (query this))).
Qed.

(** Scores and indexes tie: the lengths decide, then [localeCompare], then
    the fallback. *)
Lemma scores_and_indexes_tie fuel this a b member :
  scored (query this) (key a member) = scored (query this) (key b member) ->
  Str.indexOf (key a member) (query this) = Str.indexOf (key b member) (query this) ->
  compare (S fuel) this a b member =
  if negb (Str.length (key a member) =? Str.length (key b member)) then
    Some (if Str.length (key a member) <? Str.length (key b member) then -1 else 1)
  else if localeCompare (key b member) (key a member) =? 0 then
    match member with
    | getUri => Some 0
    | getLabel => compare fuel this a b getUri
    end
  else Some (localeCompare (key b member) (key a member)).
Proof.
  intros Hs Hi. rewrite compareItems_unfold. cbv zeta.
  now rewrite Hs, Hi, !Z.eqb_refl.
Qed.

(** A call keyed by the uri answers without calling again. *)
Lemma uri_call_answers fuel this a b :
  exists r, compare (S fuel) this a b getUri = Some r /\
            compare 1 this a b getUri = Some r.
Proof.
  rewrite !compareItems_unfold. cbv zeta.
  destruct (_ =? _); [|eauto].
  destruct (_ =? _); [|eauto].
  destruct (negb _); [eauto|].
  destruct (_ =? _); eauto.
Qed.

Lemma label_call_answers fuel this a b :
  exists r, compare (S (S fuel)) this a b getLabel = Some r /\
            compare 2 this a b getLabel = Some r.
Proof.
  rewrite (compareItems_unfold (S fuel)), (compareItems_unfold 1). cbv zeta.
  destruct (_ =? _); [|eauto].
  destruct (_ =? _); [|eauto].
  destruct (negb _); [eauto|].
  destruct (_ =? _); [|eauto].
  apply uri_call_answers.
Qed.

(** With equal scores, the smaller index sorts first, whether or not it
    is the index [-1] of a label without the filter. *)
Lemma smaller_index_first fuel this a b member :
  scored (query this) (key a member) = scored (query this) (key b member) ->
  Str.indexOf (key a member) (query this) < Str.indexOf (key b member) (query this) ->
  sorts_first (compare (S fuel) this a b member).
Proof.
  intros Hs Hi. rewrite indexes_differ by (trivial; lia).
  eexists; split; [reflexivity|lia].
Qed.

(** C2, amended. The comparator answers an integer on every pair of
    candidates, every filter and either key.  With a [localeCompare] that
    answers in {-1, 0, 1}, the answer is in {-1, 0, 1} unless it is the
    difference of the two scores or of the two indexes, of the labels or,
    in the fallback, of the uri paths. *)
Theorem compareItems_answer :
  (forall s t, In (localeCompare s t) [-1; 0; 1]) ->
  forall fuel this a b member,
  exists r, compare (S (S fuel)) this a b member = Some r /\
    (In r [-1; 0; 1] \/
     exists m,
       r = scored (query this) (key b m) - scored (query this) (key a m) \/
       r = Str.indexOf (key a m) (query this) - Str.indexOf (key b m) (query this)).
Proof.
  intros Hlc.
  assert (one_call : forall fuel this a b member,
    (member = getLabel ->
     exists r, compare fuel this a b getUri = Some r /\
       (In r [-1; 0; 1] \/
        exists m,
          r = scored (query this) (key b m) - scored (query this) (key a m) \/
          r = Str.indexOf (key a m) (query this)
              - Str.indexOf (key b m) (query this))) ->
    exists r, compare (S fuel) this a b member = Some r /\
      (In r [-1; 0; 1] \/
       exists m,
         r = scored (query this) (key b m) - scored (query this) (key a m) \/
         r = Str.indexOf (key a m) (query this)
             - Str.indexOf (key b m) (query this))).
  { intros fuel this a b member Hrec.
    rewrite compareItems_unfold. cbv zeta.
    destruct (_ =? _); [|eexists; split; [reflexivity|right; exists member; auto]].
    destruct (_ =? _); [|eexists; split; [reflexivity|right; exists member; auto]].
    destruct (negb _).
    { eexists; split; [reflexivity|left].
      destruct (_ <? _); simpl; auto. }
    destruct (_ =? _); [|eexists; split; [reflexivity|left; apply Hlc]].
    destruct member; [now apply Hrec|].
    eexists; split; [reflexivity|left; simpl; auto]. }
  intros fuel this a b member. apply one_call. intros _.
  apply one_call. discriminate.
Qed.

(** C7. With equal scores and equal indexes of the filter, the candidate
    whose normalized label is shorter sorts first; with equal lengths too,
    the one whose normalized label [localeCompare] puts later sorts
    first. *)
Theorem shorter_then_later_first fuel this a b member :
  scored (query this) (key a member) = scored (query this) (key b member) ->
  Str.indexOf (key a member) (query this) = Str.indexOf (key b member) (query this) ->
  (Str.length (key a member) < Str.length (key b member) ->
   compare (S fuel) this a b member = Some (-1)) /\
  (Str.length (key b member) < Str.length (key a member) ->
   compare (S fuel) this a b member = Some 1) /\
  (Str.length (key a member) = Str.length (key b member) ->
   localeCompare (key b member) (key a member) < 0 ->
   sorts_first (compare (S fuel) this a b member)) /\
  (Str.length (key a member) = Str.length (key b member) ->
   0 < localeCompare (key b member) (key a member) ->
   sorts_last (compare (S fuel) this a b member)).
Proof.
  intros Hs Hi. rewrite (scores_and_indexes_tie _ _ _ _ _ Hs Hi).
  repeat split.
  - intros L. destruct (Z.eqb_spec (Str.length (key a member))
                                   (Str.length (key b member))); [lia|].
    cbn [negb]. now rewrite (proj2 (Z.ltb_lt _ _) L).
  - intros L. destruct (Z.eqb_spec (Str.length (key a member))
                                   (Str.length (key b member))); [lia|].
    cbn [negb]. now rewrite (proj2 (Z.ltb_ge _ _) (Z.lt_le_incl _ _ L)).
  - intros L C. rewrite L, Z.eqb_refl. cbn [negb].
    destruct (Z.eqb_spec (localeCompare (key b member) (key a member)) 0); [lia|].
    eexists; split; [reflexivity|exact C].
  - intros L C. rewrite L, Z.eqb_refl. cbn [negb].
    destruct (Z.eqb_spec (localeCompare (key b member) (key a member)) 0); [lia|].
    eexists; split; [reflexivity|exact C].
Qed.

(** With everything tied, a call keyed by the uri answers 0 and a call
    keyed by the label answers what the call keyed by the uri does. *)
Lemma all_tied fuel this a b member :
  scored (query this) (key a member) = scored (query this) (key b member) ->
  Str.indexOf (key a member) (query this) = Str.indexOf (key b member) (query this) ->
  Str.length (key a member) = Str.length (key b member) ->
  localeCompare (key b member) (key a member) = 0 ->
  compare (S fuel) this a b member =
  match member with
  | getUri => Some 0
  | getLabel => compare fuel this a b getUri
  end.
Proof.
  intros Hs Hi Hl Hc. rewrite (scores_and_indexes_tie _ _ _ _ _ Hs Hi).
  now rewrite Hl, Hc, !Z.eqb_refl.
Qed.

(** C8. Comparing a candidate with itself by the label answers 0, for a
    [localeCompare] that finds every string equal to itself. *)
Theorem compareItems_reflexive :
  (forall s, localeCompare s s = 0) ->
  forall fuel this a, compare (S (S fuel)) this a a getLabel = Some 0.
Proof.
  intros Hrefl fuel this a.
  rewrite all_tied by auto. now rewrite all_tied by auto.
Qed.

(** C9. The fallback from the label to the uri is taken at most once: a
    call keyed by the uri answers without calling again, 0 when every
    step ties, so that two nested calls are all the comparator ever needs
    and it answers on every pair of candidates; on two candidates with the
    same label and the same uri it answers 0. *)
Theorem fallback_at_most_once this a b :
  (forall fuel member,
     exists r, compare (S (S fuel)) this a b member = Some r /\
               compare 2 this a b member = Some r) /\
  (forall fuel,
     exists r, compare (S fuel) this a b getUri = Some r /\
               compare 1 this a b getUri = Some r) /\
  (scored (query this) (key a getUri) = scored (query this) (key b getUri) ->
   Str.indexOf (key a getUri) (query this) = Str.indexOf (key b getUri) (query this) ->
   Str.length (key a getUri) = Str.length (key b getUri) ->
   localeCompare (key b getUri) (key a getUri) = 0 ->
   compare 1 this a b getUri = Some 0) /\
  ((forall s, localeCompare s s = 0) ->
   label a = label b -> uri a = uri b ->
   compare 2 this a b getLabel = Some 0).
Proof.
  split; [|split; [|split]].
  - intros fuel [|]; [apply label_call_answers|].
    destruct (uri_call_answers (S fuel) this a b) as (r & H1 & H2).
    destruct (uri_call_answers 1 this a b) as (r' & H3 & H4).
    exists r. split; [exact H1|]. congruence.
  - intros fuel. apply uri_call_answers.
  - intros Hs Hi Hl Hc. now rewrite all_tied.
  - intros Hrefl Hlabel Huri.
    assert (K : forall m, key a m = key b m).
    { intros [|]; unfold key_of, member_string; congruence. }
    rewrite all_tied; rewrite ?K; auto.
    rewrite all_tied; rewrite ?K; auto.
Qed.

(** C10, amended. A filter that normalizes to the empty string splits into
    the single empty token, which every label contains, so that every
    candidate counts as an exact match and every score is the fuzzy
    contribution plus the exact bonus of 500.  The empty filter is at index
    0 of every label, so the index step always ties: the scores decide when
    they differ, and whenever the fuzzy contributions of the two candidates
    are equal the order is decided by the rest of the chain, the lengths,
    [localeCompare] and the fallback. *)
Theorem empty_filter_all_exact this :
  query this = [] ->
  split_WHITESPACE_QUERY_SEPARATOR (query this) = [[]] /\
  (forall str, Str.includes str [] = true) /\
  (forall str, scored (query this) str
               = fuzzy_contribution (fuzzy_match [] str) + Scores.exact) /\
  Scores.exact = 500 /\
  (forall str, Str.indexOf str (query this) = 0) /\
  (forall fuel a b member,
     compare (S fuel) this a b member =
     if scored (query this) (key a member) =? scored (query this) (key b member)
     then
       if negb (Str.length (key a member) =? Str.length (key b member)) then
         Some (if Str.length (key a member) <? Str.length (key b member)
               then -1 else 1)
       else if localeCompare (key b member) (key a member) =? 0 then
         match member with
         | getUri => Some 0
         | getLabel => compare fuel this a b getUri
         end
       else Some (localeCompare (key b member) (key a member))
     else Some (scored (query this) (key b member)
                - scored (query this) (key a member))) /\
  (forall fuel a b member,
     fuzzy_contribution (fuzzy_match [] (key a member))
     = fuzzy_contribution (fuzzy_match [] (key b member)) ->
     compare (S fuel) this a b member =
     if negb (Str.length (key a member) =? Str.length (key b member)) then
       Some (if Str.length (key a member) <? Str.length (key b member)
             then -1 else 1)
     else if localeCompare (key b member) (key a member) =? 0 then
       match member with
       | getUri => Some 0
       | getLabel => compare fuel this a b getUri
       end
     else Some (localeCompare (key b member) (key a member))).
Proof.
  intros Hq. rewrite Hq.
  assert (Hscore : forall str,
    scored [] str = fuzzy_contribution (fuzzy_match [] str) + Scores.exact).
  { intros str. rewrite score_spec_score.
    unfold spec_score, split_WHITESPACE_QUERY_SEPARATOR.
    cbn [Str.split_ws Str.split_ws_from rev Str.join
      List.concat app forallb]. now rewrite includes_empty. }
  assert (Hcompare : forall fuel a b member,
    compare (S fuel) this a b member =
    if scored [] (key a member) =? scored [] (key b member)
    then
      if negb (Str.length (key a member) =? Str.length (key b member)) then
        Some (if Str.length (key a member) <? Str.length (key b member)
              then -1 else 1)
      else if localeCompare (key b member) (key a member) =? 0 then
        match member with
        | getUri => Some 0
        | getLabel => compare fuel this a b getUri
        end
      else Some (localeCompare (key b member) (key a member))
    else Some (scored [] (key b member) - scored [] (key a member))).
  { intros fuel a b member. rewrite compareItems_unfold. cbv zeta.
    now rewrite Hq, !indexOf_empty, Z.eqb_refl. }
  split; [reflexivity|]. split; [exact includes_empty|].
  split; [exact Hscore|]. split; [reflexivity|].
  split; [exact indexOf_empty|]. split; [exact Hcompare|].
  intros fuel a b member E. rewrite Hcompare, !Hscore, E. now rewrite Z.eqb_refl.
Qed.

End RankerFacts.

(** * The comparator on the host's instances *)

Section HostFacts.

Lemma host_localeCompare_refl s : Host.localeCompare s s = 0.
Proof.
  induction s as [|c s IH]; simpl; [reflexivity|].
  now rewrite N.ltb_irrefl.
Qed.

Lemma host_localeCompare_unit : forall s t,
  In (Host.localeCompare s t) [-1; 0; 1].
Proof.
  induction s as [|c s IH]; intros [|d t]; simpl; auto.
  destruct (c <? d)%N; [auto|]. destruct (d <? c)%N; [auto|]. apply IH.
Qed.

Lemma host_fuzzy_scan_nil : forall str curr total,
  Host.fuzzy_scan [] str curr total = Some total.
Proof.
  induction str as [|ch str IH]; intros curr total; simpl; [reflexivity|apply IH].
Qed.

(** With the fuzzy package, an empty filter gives every label that is not
    empty the score 500. *)
Lemma host_empty_filter_ties c str : Host.score [] (c :: str) = 500.
Proof.
  unfold Host.score. rewrite score_spec_score.
  unfold spec_score, Host.fuzzy_match.
  cbn [split_WHITESPACE_QUERY_SEPARATOR Str.split_ws Str.split_ws_from rev
       Str.join List.concat app forallb Host.toLowerCase map].
  rewrite includes_empty, host_fuzzy_scan_nil. reflexivity.
Qed.

End HostFacts.

(** C1. With equal scores the comparator answers the difference of the two
    indexes of the filter, and the index of a label without the filter is
    -1: such a label sorts before, not after, a label that contains the
    filter.  With the filter "a b", the labels "a-b" and "a b" have the same
    score, the indexes -1 and 0, and "a-b" sorts first. *)
Theorem not_found_sorts_first :
  let this := Host.service "a b" in
  let a := Host.item "a-b" "/w" in
  let b := Host.item "a b" "/w" in
  Host.score (js "a b") (js "a-b") = Host.score (js "a b") (js "a b") /\
  Str.indexOf (js "a-b") (js "a b") = -1 /\
  Str.indexOf (js "a b") (js "a b") = 0 /\
  Host.compareItems 2 this a b getLabel = Some (-1) /\
  sorts_first (Host.compareItems 2 this a b getLabel).
Proof.
  repeat split; try (vm_compute; reflexivity).
  exists (-1). split; [vm_compute; reflexivity|lia].
Qed.

(** C2, as stated, fails: with the filter "ab", the label "ab" scores 1500
    and the label "xab" scores 504, and the comparator answers their
    difference. *)
Lemma compareItems_beyond_unit :
  Host.compareItems 2 (Host.service "ab")
    (Host.item "ab" "/w") (Host.item "xab" "/w") getLabel = Some (-996) /\
  ~ In (-996) [-1; 0; 1].
Proof.
  split; [vm_compute; reflexivity|].
  simpl. intros [H|[H|[H|[]]]]; discriminate.
Qed.

Lemma compareItems_answer_witness :
  exists r,
    Host.compareItems 2 (Host.service "ab")
      (Host.item "ab" "/w") (Host.item "xab" "/w") getLabel = Some r /\
    (In r [-1; 0; 1] \/
     exists m,
       r = Host.score (query_of Host.toLowerCase (Host.service "ab"))
             (key_of Host.toLowerCase (Host.item "xab" "/w") m)
           - Host.score (query_of Host.toLowerCase (Host.service "ab"))
               (key_of Host.toLowerCase (Host.item "ab" "/w") m) \/
       r = Str.indexOf (key_of Host.toLowerCase (Host.item "ab" "/w") m)
             (query_of Host.toLowerCase (Host.service "ab"))
           - Str.indexOf (key_of Host.toLowerCase (Host.item "xab" "/w") m)
               (query_of Host.toLowerCase (Host.service "ab"))).
Proof.
  exact (compareItems_answer Host.toLowerCase Host.localeCompare Host.fuzzy_match
           host_localeCompare_unit 0 (Host.service "ab")
           (Host.item "ab" "/w") (Host.item "xab" "/w") getLabel).
Defined.

Lemma shorter_then_later_first_witness :
  Host.compareItems 1 (Host.service "ab")
    (Host.item "abc" "/w") (Host.item "abcd" "/w") getLabel = Some (-1) /\
  sorts_last (Host.compareItems 1 (Host.service "ab")
    (Host.item "abc" "/w") (Host.item "abd" "/w") getLabel).
Proof.
  split.
  - refine (proj1 (shorter_then_later_first Host.toLowerCase Host.localeCompare
      Host.fuzzy_match 0 (Host.service "ab")
      (Host.item "abc" "/w") (Host.item "abcd" "/w") getLabel _ _) _);
      vm_compute; reflexivity.
  - refine (proj2 (proj2 (proj2 (shorter_then_later_first Host.toLowerCase
      Host.localeCompare Host.fuzzy_match 0 (Host.service "ab")
      (Host.item "abc" "/w") (Host.item "abd" "/w") getLabel _ _))) _ _);
      vm_compute; reflexivity.
Defined.

Lemma compareItems_reflexive_witness :
  Host.compareItems 2 (Host.service "qfo")
    (Host.item "quick-file-open.ts" "/src/browser")
    (Host.item "quick-file-open.ts" "/src/browser") getLabel = Some 0.
Proof.
  exact (compareItems_reflexive Host.toLowerCase Host.localeCompare
           Host.fuzzy_match host_localeCompare_refl 0 (Host.service "qfo")
           (Host.item "quick-file-open.ts" "/src/browser")).
Defined.

Lemma fallback_at_most_once_witness :
  Host.compareItems 1 (Host.service "ab")
    (Host.item "ab" "/w") (Host.item "ab" "/w") getUri = Some 0 /\
  Host.compareItems 2 (Host.service "ab")
    (Host.item "ab" "/w") (Host.item "ab" "/w") getLabel = Some 0.
Proof.
  pose proof (fallback_at_most_once Host.toLowerCase Host.localeCompare
    Host.fuzzy_match (Host.service "ab")
    (Host.item "ab" "/w") (Host.item "ab" "/w")) as (_ & _ & Huri & Hlabel).
  split.
  - apply Huri; vm_compute; reflexivity.
  - apply Hlabel; [exact host_localeCompare_refl|reflexivity..].
Defined.

(** C10, as stated, fails: under the filter of two blanks, which normalizes
    to the empty string, the label of one blank normalizes to the empty
    string too and is a perfect fuzzy match, with the score 1500, while the
    label "a" has the score 500; the score step decides, not the steps after
    it. *)
Lemma empty_filter_score_decides :
  query_of Host.toLowerCase (Host.service "  ") = [] /\
  Host.score [] (key_of Host.toLowerCase (Host.item " " "/w") getLabel) = 1500 /\
  Host.score [] (key_of Host.toLowerCase (Host.item "a" "/w") getLabel) = 500 /\
  Host.compareItems 2 (Host.service "  ")
    (Host.item " " "/w") (Host.item "a" "/w") getLabel = Some (-1000).
Proof. repeat split; vm_compute; reflexivity. Qed.

Lemma empty_filter_all_exact_witness :
  split_WHITESPACE_QUERY_SEPARATOR
    (query_of Host.toLowerCase (Host.service "  ")) = [[]] /\
  Host.score (query_of Host.toLowerCase (Host.service "  ")) (js "readme.md")
  = fuzzy_contribution (Host.fuzzy_match [] (js "readme.md")) + Scores.exact.
Proof.
  assert (Hq : query_of Host.toLowerCase (Host.service "  ") = [])
    by (vm_compute; reflexivity).
  pose proof (empty_filter_all_exact Host.toLowerCase Host.localeCompare
    Host.fuzzy_match (Host.service "  ") Hq) as (Hsplit & _ & Hscore & _).
  split; [exact Hsplit|exact (Hscore (js "readme.md"))].
Defined.

(** * Further properties of the query splitter *)

Section SplitterFamilies.

Import RegExp.

Lemma open_mark_cases c :
  is_open_mark c = true -> c = 35%N \/ c = 58%N \/ c = 40%N.
Proof.
  unfold is_open_mark, Str.one_of. cbn [js list_ascii_of_string map existsb].
  change (N_of_ascii "#") with 35%N. change (N_of_ascii ":") with 58%N.
  change (N_of_ascii "(") with 40%N.
  destruct (N.eqb_spec c 35); [auto|]. destruct (N.eqb_spec c 58); [auto|].
  destruct (N.eqb_spec c 40); [auto|]. discriminate.
Qed.

Lemma separator_cases c :
  is_separator c = true -> c = 35%N \/ c = 58%N \/ c = 44%N.
Proof.
  unfold is_separator, Str.one_of. cbn [js list_ascii_of_string map existsb].
  change (N_of_ascii "#") with 35%N. change (N_of_ascii ":") with 58%N.
  change (N_of_ascii ",") with 44%N.
  destruct (N.eqb_spec c 35); [auto|]. destruct (N.eqb_spec c 58); [auto|].
  destruct (N.eqb_spec c 44); [auto|]. discriminate.
Qed.

Lemma digit_bounds c : Str.is_digit c = true -> (48 <= c <= 57)%N.
Proof.
  unfold Str.is_digit. intros H. apply andb_true_iff in H as [H1 H2].
  apply N.leb_le in H1, H2. lia.
Qed.

Lemma digit_not_space c : Str.is_digit c = true -> Str.is_space c = false.
Proof.
  intros H. apply digit_bounds in H. unfold Str.is_space.
  rewrite (proj2 (N.leb_gt c 13)) by lia.
  rewrite (proj2 (N.leb_gt 8192 c)) by lia.
  rewrite !(proj2 (N.eqb_neq c _)) by lia.
  now rewrite andb_false_r.
Qed.

(** The pattern does not match at a code unit that is no opening mark,
    unless that is a white space right before one. *)
Lemma pattern_fails_at c s :
  is_open_mark c = false ->
  (Str.is_space c = true ->
   match s with [] => True | d :: _ => is_open_mark d = false end) ->
  match_here LINE_COLON_PATTERN (c :: s) = None.
Proof.
  intros Hc Hs. unfold match_here, LINE_COLON_PATTERN, Cat.
  cbn [fold_right]. rewrite rmatch_seq, rmatch_opt.
  rewrite (open_mark_expected _ _ {| rest := c :: s; caps := [] |}) by exact Hc.
  rewrite rmatch_class. cbn [rest].
  destruct (Str.is_space c); [|reflexivity].
  destruct (progressed _ _); [|reflexivity].
  rewrite open_mark_expected; [reflexivity|]. cbn [rest advance].
  now apply Hs.
Qed.

(** [exec] passes over a stretch without opening marks that does not end in
    a white space. *)
Lemma exec_from_skips name : forall suffix i,
  Forall (fun c => is_open_mark c = false) name ->
  ends_in_space name = false ->
  exec_from LINE_COLON_PATTERN i (name ++ suffix)
  = exec_from LINE_COLON_PATTERN (i + List.length name) suffix.
Proof.
  induction name as [|c name IH]; intros suffix i F E.
  - simpl. now rewrite Nat.add_0_r.
  - inversion F as [|? ? Hc F']; subst.
    cbn [app exec_from]. rewrite pattern_fails_at; trivial.
    + rewrite IH; trivial.
      * cbn [List.length]. now rewrite Nat.add_succ_r.
      * destruct name; [reflexivity|exact E].
    + intros Sp. destruct name as [|d name].
      * simpl in E. congruence.
      * now inversion F'.
Qed.

(** The loop of [p*] goes to the end of a run of the class [p] when the
    continuation accepts what follows the run. *)
Lemma star_class_greedy p k ds : forall t c n st,
  rest st = ds ++ t ->
  Forall (fun x => p x = true) ds ->
  match t with [] => True | x :: _ => p x = false end ->
  (List.length ds <= n)%nat ->
  k (advance st t) = Some c ->
  star_loop (rmatch (Class p)) k n st = Some c.
Proof.
  induction ds as [|d ds IH]; intros t c n st R F T L K.
  - simpl in R. assert (E : k st = Some c).
    { destruct st as [r0 c0]. simpl in R. subst r0. exact K. }
    destruct n as [|n]; [exact E|].
    cbn [star_loop]. rewrite rmatch_class, R.
    destruct t as [|x t]; [exact E|]. now rewrite T.
  - destruct n as [|n]; [simpl in L; lia|].
    inversion F as [|? ? Hd F']; subst.
    cbn [star_loop]. rewrite rmatch_class, R. cbn [app]. rewrite Hd.
    rewrite (progressed_cons st d (ds ++ t)) by exact R.
    rewrite (IH t c n (advance st (ds ++ t))); trivial.
    simpl in L. lia.
Qed.

Lemma rmatch_group_star_greedy n p k ds t c st :
  rest st = ds ++ t ->
  Forall (fun x => p x = true) ds ->
  match t with [] => True | x :: _ => p x = false end ->
  k {| rest := t; caps := (n, ds) :: caps st |} = Some c ->
  rmatch (Group n (Star (Class p))) k st = Some c.
Proof.
  intros R F T K. cbn [rmatch].
  apply (star_class_greedy p _ ds t); trivial.
  - rewrite R, length_app. lia.
  - cbn [advance rest caps]. rewrite R.
    replace (List.length (ds ++ t) - List.length t)%nat
      with (List.length ds + 0)%nat by (rewrite length_app; lia).
    now rewrite firstn_app_2, app_nil_r.
Qed.

Lemma rmatch_chars s k st :
  rmatch (Chars s) k st =
  match Str.strip_prefix s (rest st) with
  | Some t => k (advance st t)
  | None => None
  end.
Proof. reflexivity. Qed.

Lemma not_line_word d s :
  Str.is_digit d = true -> Str.strip_prefix (js "line ") (d :: s) = None.
Proof.
  intros H. apply digit_bounds in H. cbn [js list_ascii_of_string map Str.strip_prefix].
  change (N_of_ascii "l") with 108%N.
  now rewrite (proj2 (N.eqb_neq 108 d)) by lia.
Qed.

Lemma open_mark_accepted c :
  is_open_mark c = true -> Str.is_space c = false /\ Str.one_of "#:(" c = true.
Proof.
  intros H. split; [|exact H].
  destruct (open_mark_cases c H) as [->|[->| ->]]; reflexivity.
Qed.

(** An opening mark and a line number match, with the number as group 1. *)
Lemma match_line_suffix c d ds :
  is_open_mark c = true ->
  Forall (fun x => Str.is_digit x = true) (d :: ds) ->
  match_here LINE_COLON_PATTERN (c :: d :: ds) = Some [(1%nat, d :: ds)].
Proof.
  intros Hc F. destruct (open_mark_accepted c Hc) as [Sp Op].
  unfold match_here, LINE_COLON_PATTERN, Cat. cbn [fold_right].
  rewrite rmatch_seq, rmatch_opt, rmatch_class. cbn [rest]. rewrite Sp.
  cbn [or_else]. rewrite rmatch_seq, rmatch_class. cbn [rest]. rewrite Op.
  rewrite rmatch_seq, rmatch_opt, rmatch_chars. cbn [advance rest caps].
  rewrite not_line_word by now inversion F. cbn [or_else].
  rewrite rmatch_seq.
  apply (rmatch_group_star_greedy 1 Str.is_digit _ (d :: ds) []); trivial.
  now rewrite app_nil_r.
Qed.

(** An opening mark, a line number, a separator and a column number match,
    with the numbers as groups 1 and 2. *)
Lemma match_line_column_suffix c d ds sep cs :
  is_open_mark c = true ->
  Forall (fun x => Str.is_digit x = true) (d :: ds) ->
  is_separator sep = true ->
  Forall (fun x => Str.is_digit x = true) cs ->
  match_here LINE_COLON_PATTERN (c :: (d :: ds) ++ sep :: cs)
  = Some [(2%nat, cs); (1%nat, d :: ds)].
Proof.
  intros Hc F Hsep Fc. destruct (open_mark_accepted c Hc) as [Sp Op].
  assert (Dsep : Str.is_digit sep = false).
  { destruct (separator_cases sep Hsep) as [->|[->| ->]]; reflexivity. }
  unfold match_here, LINE_COLON_PATTERN, Cat. cbn [fold_right].
  rewrite rmatch_seq, rmatch_opt, rmatch_class. cbn [rest]. rewrite Sp.
  cbn [or_else]. rewrite rmatch_seq, rmatch_class. cbn [rest]. rewrite Op.
  rewrite rmatch_seq, rmatch_opt, rmatch_chars. cbn [advance rest caps app].
  rewrite not_line_word by now inversion F. cbn [or_else].
  rewrite rmatch_seq.
  apply (rmatch_group_star_greedy 1 Str.is_digit _ (d :: ds) (sep :: cs));
    trivial.
  cbn [caps]. rewrite rmatch_seq, rmatch_opt, rmatch_seq, rmatch_class.
  cbn [rest]. unfold is_separator in Hsep. rewrite Hsep.
  match goal with
  | |- or_else ?x _ = _ =>
      assert (G : x = Some [(2%nat, cs); (1%nat, d :: ds)])
  end.
  { apply (rmatch_group_star_greedy 2 Str.is_digit _ cs []); trivial.
    cbn [advance rest]. now rewrite app_nil_r. }
  now rewrite G.
Qed.

End SplitterFamilies.

Section SplitterNumbers.

Import RegExp.

Lemma take_digits_all ds :
  Forall (fun x => Str.is_digit x = true) ds -> Num.take_digits ds = ds.
Proof.
  induction 1 as [|d ds Hd _ IH]; simpl; [reflexivity|].
  now rewrite Hd, IH.
Qed.

(** On a run of digits [parseInt] reads the whole run. *)
Lemma parseInt10_digits d ds :
  Forall (fun x => Str.is_digit x = true) (d :: ds) ->
  Num.parseInt10 (d :: ds) = Num.of_magnitude false (Num.digits_value (d :: ds)).
Proof.
  intros F. assert (Hd : Str.is_digit d = true) by now inversion F.
  pose proof (digit_bounds d Hd) as B.
  unfold Num.parseInt10. cbn [Str.trimStart]. rewrite (digit_not_space d Hd).
  rewrite (proj2 (N.eqb_neq d 45)), (proj2 (N.eqb_neq d 43)) by lia.
  rewrite (take_digits_all _ F). reflexivity.
Qed.

Lemma digits_value_from ds : forall acc,
  Forall (fun x => Str.is_digit x = true) ds -> 0 <= acc ->
  0 <= fold_left (fun a c => 10 * a + Num.digit_value c) ds acc
    < (acc + 1) * 10 ^ Z.of_nat (List.length ds).
Proof.
  induction ds as [|d ds IH]; intros acc F Hacc.
  - simpl. lia.
  - inversion F as [|? ? Hd F']; subst.
    pose proof (digit_bounds d Hd) as B.
    assert (V : 0 <= Num.digit_value d <= 9) by (unfold Num.digit_value; lia).
    cbn [fold_left List.length]. rewrite Nat2Z.inj_succ, Z.pow_succ_r by lia.
    specialize (IH (10 * acc + Num.digit_value d) F' ltac:(lia)).
    destruct IH as [IH1 IH2]. split; [exact IH1|].
    eapply Z.lt_le_trans; [exact IH2|].
    assert (P : 0 < 10 ^ Z.of_nat (List.length ds)) by (apply Z.pow_pos_nonneg; lia).
    nia.
Qed.

Lemma digits_value_bounds ds :
  Forall (fun x => Str.is_digit x = true) ds ->
  0 <= Num.digits_value ds < 10 ^ Z.of_nat (List.length ds).
Proof.
  intros F. pose proof (digits_value_from ds 0 F (Z.le_refl 0)) as H.
  unfold Num.digits_value. lia.
Qed.

Lemma round53_small v : 0 <= v < 2 ^ 53 -> Num.round53 v = v.
Proof.
  intros Hv. unfold Num.round53.
  assert (L : Z.log2 v - 52 <= 0).
  { destruct (Z.eq_dec v 0) as [->|]; [discriminate|].
    assert (Z.log2 v < 53) by (apply Z.log2_lt_pow2; lia). lia. }
  now rewrite (proj2 (Z.leb_le _ _) L).
Qed.

Lemma round53_nonneg n : 0 <= n -> 0 <= Num.round53 n.
Proof.
  intros Hn. unfold Num.round53.
  destruct (Z.log2 n - 52 <=? 0); [exact Hn|].
  assert (Q : 0 <= Z.shiftr n (Z.log2 n - 52)) by now apply Z.shiftr_nonneg.
  assert (P : 0 <= 2 ^ (Z.log2 n - 52)) by (apply Z.pow_nonneg; lia).
  destruct (_ <? _); [nia|]. destruct (_ <? _); [nia|].
  destruct (Z.even _); nia.
Qed.

(** Rounding adds at most one unit in the last place. *)
Lemma round53_upper n :
  0 <= n -> Num.round53 n <= n + 2 ^ Z.max 0 (Z.log2 n - 52).
Proof.
  intros Hn. unfold Num.round53.
  destruct (Z.leb_spec (Z.log2 n - 52) 0) as [L|L].
  - assert (0 < 2 ^ Z.max 0 (Z.log2 n - 52)) by (apply Z.pow_pos_nonneg; lia). lia.
  - rewrite Z.max_r by lia. set (e := Z.log2 n - 52) in *.
    assert (P : 0 < 2 ^ e) by (apply Z.pow_pos_nonneg; lia).
    rewrite Z.shiftr_div_pow2 by lia.
    pose proof (Z.mul_div_le n (2 ^ e) P) as D.
    destruct (_ <? _); [nia|]. destruct (_ <? _); [nia|].
    destruct (Z.even _); nia.
Qed.

(** A number of at most 308 decimal digits is a finite double. *)
Lemma of_magnitude_308 v :
  0 <= v < 10 ^ 308 -> exists l, Num.of_magnitude false v = Num.Finite l /\ 0 <= l.
Proof.
  intros Hv. unfold Num.of_magnitude.
  pose proof (round53_upper v (proj1 Hv)) as U.
  pose proof (round53_nonneg v (proj1 Hv)) as N.
  assert (E : 2 ^ Z.max 0 (Z.log2 v - 52) <= 2 ^ 971).
  { apply Z.pow_le_mono_r; [lia|].
    assert (Z.log2 v <= Z.log2 (10 ^ 308)) by (apply Z.log2_le_mono; lia).
    assert (Z.log2 (10 ^ 308) = 1023) by (vm_compute; reflexivity). lia. }
  assert (B : 10 ^ 308 + 2 ^ 971 < 2 ^ 1024) by (vm_compute; reflexivity).
  assert (R : Num.round53 v < 2 ^ 1024).
  { revert U E B Hv. generalize (Num.round53 v) (2 ^ Z.max 0 (Z.log2 v - 52))
      (10 ^ 308) (2 ^ 971) (2 ^ 1024). intros; lia. }
  rewrite (proj2 (Z.ltb_lt _ _) R). eauto.
Qed.

Lemma zero_based_line v :
  0 <= v < 2 ^ 53 ->
  (if 0 <? v then Num.minus_one v else 0) = zero_based v.
Proof.
  intros Hv. unfold zero_based. destruct (Z.ltb_spec 0 v).
  - rewrite minus_one_exact by lia. lia.
  - lia.
Qed.

Lemma exec_after_name name suffix c :
  Forall (fun x => is_open_mark x = false) name ->
  ends_in_space name = false ->
  match_here LINE_COLON_PATTERN suffix = Some c ->
  exec LINE_COLON_PATTERN (name ++ suffix)
  = Some {| index := List.length name; groups := c |}.
Proof.
  intros F E M. unfold exec. rewrite exec_from_skips by trivial.
  destruct suffix; cbn [exec_from]; now rewrite M.
Qed.

End SplitterNumbers.

(** A match at the end of [name] whose only group is a line number below
    2^53 gives the name and the line before the number. *)
Lemma split_at_line_match s name d ds :
  RegExp.exec LINE_COLON_PATTERN s
  = Some {| RegExp.index := List.length name; RegExp.groups := [(1%nat, d :: ds)] |} ->
  firstn (List.length name) s = name ->
  Forall (fun c => Str.is_digit c = true) (d :: ds) ->
  Num.digits_value (d :: ds) < 2 ^ 53 ->
  splitFilterAndRange s
  = {| filter := name;
       range := Some (point (zero_based (Num.digits_value (d :: ds))) 0) |}.
Proof.
  intros E Hname Fd Hv. pose proof (digits_value_bounds _ Fd) as [V0 _].
  unfold splitFilterAndRange. rewrite E.
  unfold RegExp.group. cbn [RegExp.groups RegExp.assoc Nat.eqb or_empty RegExp.index].
  rewrite (parseInt10_digits d ds Fd). unfold Num.of_magnitude.
  rewrite round53_small by lia.
  assert (B : Num.digits_value (d :: ds) < 2 ^ 1024).
  { eapply Z.lt_trans; [exact Hv|]. vm_compute. reflexivity. }
  rewrite (proj2 (Z.ltb_lt _ _) B).
  rewrite zero_based_line by lia.
  unfold Str.substr0. now rewrite Hname.
Qed.

(** X1. A name without opening marks that does not end in white space,
    followed by an opening mark and a line number below 2^53, is split into
    the name and the point at the line before the number (line 0 for the
    numbers 0 and 1), column 0. *)
Theorem split_name_line name mark digits :
  Forall (fun c => is_open_mark c = false) name ->
  ends_in_space name = false ->
  is_open_mark mark = true ->
  digits <> [] ->
  Forall (fun c => Str.is_digit c = true) digits ->
  Num.digits_value digits < 2 ^ 53 ->
  splitFilterAndRange (name ++ mark :: digits)
  = {| filter := name;
       range := Some (point (zero_based (Num.digits_value digits)) 0) |}.
Proof.
  intros Fn En Hm Hne Fd Hv. destruct digits as [|d ds]; [congruence|].
  apply split_at_line_match; trivial.
  - apply exec_after_name; trivial. now apply match_line_suffix.
  - rewrite firstn_app, Nat.sub_diag, firstn_all. cbn [firstn].
    now rewrite app_nil_r.
Qed.

Lemma split_name_line_witness :
  splitFilterAndRange (js "my file.ts" ++ 35%N :: js "0")
  = {| filter := js "my file.ts"; range := Some (point 0 0) |}.
Proof.
  refine (split_name_line (js "my file.ts") 35%N (js "0") _ _ _ _ _ _).
  - vm_compute. repeat constructor.
  - reflexivity.
  - reflexivity.
  - discriminate.
  - vm_compute. repeat constructor.
  - vm_compute. reflexivity.
Defined.

(** X2. The same with a separator and a column number after the line
    number: the point is at the line and the column before the numbers
    read, and a column number that is left empty, 0 or 1 gives column 0. *)
Theorem split_name_line_column name mark digits sep column :
  Forall (fun c => is_open_mark c = false) name ->
  ends_in_space name = false ->
  is_open_mark mark = true ->
  digits <> [] ->
  Forall (fun c => Str.is_digit c = true) digits ->
  Num.digits_value digits < 2 ^ 53 ->
  is_separator sep = true ->
  Forall (fun c => Str.is_digit c = true) column ->
  Num.digits_value column < 2 ^ 53 ->
  splitFilterAndRange (name ++ mark :: digits ++ sep :: column)
  = {| filter := name;
       range := Some (point (zero_based (Num.digits_value digits))
                            (zero_based (Num.digits_value column))) |}.
Proof.
  intros Fn En Hm Hne Fd Hv Hs Fc Hc. destruct digits as [|d ds]; [congruence|].
  pose proof (digits_value_bounds _ Fd) as [V0 _].
  pose proof (digits_value_bounds _ Fc) as [C0 _].
  assert (Big : 2 ^ 53 < 2 ^ 1024) by (vm_compute; reflexivity).
  unfold splitFilterAndRange.
  rewrite (exec_after_name name _ _ Fn En
             (match_line_column_suffix mark d ds sep column Hm Fd Hs Fc)).
  unfold RegExp.group. cbn [RegExp.groups RegExp.assoc Nat.eqb or_empty RegExp.index].
  rewrite (parseInt10_digits d ds Fd). unfold Num.of_magnitude.
  rewrite round53_small by lia.
  rewrite (proj2 (Z.ltb_lt (Num.digits_value (d :: ds)) _)) by lia.
  rewrite zero_based_line by lia.
  assert (Col : match Num.parseInt10 column with
                | Num.Finite col => if 0 <? col then Num.minus_one col else 0
                | _ => 0
                end = zero_based (Num.digits_value column)).
  { destruct column as [|x column]; [reflexivity|].
    rewrite (parseInt10_digits x column Fc). unfold Num.of_magnitude.
    rewrite round53_small by lia.
    rewrite (proj2 (Z.ltb_lt (Num.digits_value (x :: column)) _)) by lia.
    apply zero_based_line. lia. }
  rewrite Col.
  unfold Str.substr0. rewrite firstn_app, Nat.sub_diag, firstn_all. cbn [firstn].
  now rewrite app_nil_r.
Qed.

Lemma split_name_line_column_witness :
  splitFilterAndRange (js "src/a.ts" ++ 40%N :: js "12" ++ 44%N :: js "")
  = {| filter := js "src/a.ts"; range := Some (point 11 0) |}.
Proof.
  refine (split_name_line_column (js "src/a.ts") 40%N (js "12") 44%N (js "")
            _ _ _ _ _ _ _ _ _).
  - vm_compute. repeat constructor.
  - reflexivity.
  - reflexivity.
  - discriminate.
  - vm_compute. repeat constructor.
  - vm_compute. reflexivity.
  - reflexivity.
  - constructor.
  - vm_compute. reflexivity.
Defined.

(** X3. However large, a line number of at most 308 digits is accepted: the
    name is the filter and there is a range, on a line that is not
    negative. *)
Theorem split_accepts_308_digits name mark digits :
  Forall (fun c => is_open_mark c = false) name ->
  ends_in_space name = false ->
  is_open_mark mark = true ->
  digits <> [] ->
  Forall (fun c => Str.is_digit c = true) digits ->
  (List.length digits <= 308)%nat ->
  exists l, 0 <= l /\
    splitFilterAndRange (name ++ mark :: digits)
    = {| filter := name; range := Some (point l 0) |}.
Proof.
  intros Fn En Hm Hne Fd Hlen. destruct digits as [|d ds]; [congruence|].
  pose proof (digits_value_bounds _ Fd) as [V0 V1].
  assert (V : 0 <= Num.digits_value (d :: ds) < 10 ^ 308).
  { split; [exact V0|]. eapply Z.lt_le_trans; [exact V1|].
    apply Z.pow_le_mono_r; lia. }
  destruct (of_magnitude_308 _ V) as (l & Hl & L0).
  exists (if 0 <? l then Num.minus_one l else 0). split.
  - destruct (Z.ltb_spec 0 l); [|lia]. apply round53_nonneg. lia.
  - unfold splitFilterAndRange.
    rewrite (exec_after_name name _ _ Fn En (match_line_suffix mark d ds Hm Fd)).
    unfold RegExp.group.
    cbn [RegExp.groups RegExp.assoc Nat.eqb or_empty RegExp.index].
    rewrite (parseInt10_digits d ds Fd), Hl.
    unfold Str.substr0. rewrite firstn_app, Nat.sub_diag, firstn_all. cbn [firstn].
    now rewrite app_nil_r.
Qed.

Lemma split_accepts_308_digits_witness :
  exists l, 0 <= l /\
    splitFilterAndRange (js "a.ts" ++ 58%N :: repeat 57%N 300)
    = {| filter := js "a.ts"; range := Some (point l 0) |}.
Proof.
  refine (split_accepts_308_digits (js "a.ts") 58%N (repeat 57%N 300) _ _ _ _ _ _).
  - vm_compute. repeat constructor.
  - reflexivity.
  - reflexivity.
  - discriminate.
  - apply Forall_forall. intros x Hx. apply repeat_spec in Hx. now subst x.
  - rewrite repeat_length. apply Nat.leb_le. vm_compute. reflexivity.
Defined.

(** X4. The positions of a range are never negative, whatever the input. *)
Theorem split_range_not_negative s rg :
  range (splitFilterAndRange s) = Some rg ->
  0 <= line (range_start rg) /\ 0 <= character (range_start rg).
Proof.
  unfold splitFilterAndRange.
  destruct (RegExp.exec LINE_COLON_PATTERN s) as [m|]; [|discriminate].
  destruct (Num.parseInt10 (or_empty (RegExp.group m 1))) as [| |l];
    try discriminate.
  cbn [range]. intros H. inversion H; subst rg.
  cbn [range_start Range_create Position_create line character]. split.
  - destruct (Z.ltb_spec 0 l); [|lia]. apply round53_nonneg. lia.
  - destruct (Num.parseInt10 (or_empty (RegExp.group m 2))) as [| |col]; try lia.
    destruct (Z.ltb_spec 0 col); [|lia]. apply round53_nonneg. lia.
Qed.

Lemma split_range_not_negative_witness :
  0 <= line (range_start (point 0 0)) /\ 0 <= character (range_start (point 0 0)).
Proof.
  apply (split_range_not_negative (js "a.ts:0:0")). vm_compute. reflexivity.
Defined.

(** X5. A range is recognized exactly when the filter is shorter than the
    input: with a range at least the opening mark is cut off, without one
    the filter is the input. *)
Theorem split_cuts_iff_range s :
  (range (splitFilterAndRange s) = None <-> filter (splitFilterAndRange s) = s) /\
  (range (splitFilterAndRange s) <> None ->
   (List.length (filter (splitFilterAndRange s)) < List.length s)%nat).
Proof.
  assert (Cut : forall rg, range (splitFilterAndRange s) = Some rg ->
    (List.length (filter (splitFilterAndRange s)) < List.length s)%nat).
  { intros rg R. destruct (split_with_range s rg R) as (m & _ & L & F & M & _).
    rewrite F, length_firstn.
    assert (RegExp.index m <> List.length s).
    { intros E. rewrite E, skipn_all in M.
      now rewrite (pattern_needs_open_mark [] (Forall_nil _)) in M. }
    lia. }
  split; [split|].
  - unfold splitFilterAndRange.
    destruct (RegExp.exec LINE_COLON_PATTERN s) as [m|]; [|reflexivity].
    destruct (Num.parseInt10 (or_empty (RegExp.group m 1))); try reflexivity.
    discriminate.
  - intros F. destruct (range (splitFilterAndRange s)) as [rg|] eqn:R; [|reflexivity].
    specialize (Cut rg eq_refl). rewrite F in Cut. lia.
  - destruct (range (splitFilterAndRange s)) as [rg|]; [intros _|congruence].
    now apply (Cut rg).
Qed.

Lemma split_cuts_iff_range_witness :
  filter (splitFilterAndRange (js "a.ts:x")) = js "a.ts:x" /\
  (List.length (filter (splitFilterAndRange (js "a.ts:7"))) < List.length (js "a.ts:7"))%nat.
Proof.
  split.
  - apply (proj1 (proj1 (split_cuts_iff_range (js "a.ts:x")))).
    vm_compute. reflexivity.
  - apply (proj2 (split_cuts_iff_range (js "a.ts:7"))).
    vm_compute. discriminate.
Defined.

(** * Further properties of the comparator *)

Section OrderFacts.

Variable toLowerCase : jsstring -> jsstring.
Variable localeCompare : jsstring -> jsstring -> Z.
Variable fuzzy_match : jsstring -> jsstring -> option FuzzyScore.

Local Notation "'compare'" := (compareItems toLowerCase localeCompare fuzzy_match).
Local Notation "'query'" := (query_of toLowerCase).
Local Notation "'key'" := (key_of toLowerCase).
Local Notation "'scored'" := (score fuzzy_match).
Local Notation "'decided'" := (key_compare toLowerCase localeCompare fuzzy_match).

(** A call answers what it finds on its own key, and only when that is 0
    it falls back, or answers 0 when the key is the uri already. *)
Lemma compare_by_key fuel this a b member :
  compare (S fuel) this a b member =
  if decided this a b member =? 0 then
    match member with
    | getUri => Some 0
    | getLabel => compare fuel this a b getUri
    end
  else Some (decided this a b member).
Proof.
  rewrite compareItems_unfold. unfold key_compare. cbv zeta.
  destruct (Z.eqb_spec (scored (query this) (key a member))
                       (scored (query this) (key b member))) as [Es|Es].
  - destruct (Z.eqb_spec (Str.indexOf (key a member) (query this))
                         (Str.indexOf (key b member) (query this))) as [Ei|Ei].
    + destruct (negb _); [|reflexivity]. now destruct (_ <? _).
    + now rewrite (proj2 (Z.eqb_neq _ 0)) by lia.
  - now rewrite (proj2 (Z.eqb_neq _ 0)) by lia.
Qed.

Lemma uri_call_by_key fuel this a b :
  compare (S fuel) this a b getUri = Some (decided this a b getUri).
Proof.
  rewrite compare_by_key. destruct (Z.eqb_spec (decided this a b getUri) 0); congruence.
Qed.

Lemma label_call_by_key fuel this a b :
  compare (S (S fuel)) this a b getLabel =
  Some (if decided this a b getLabel =? 0 then decided this a b getUri
        else decided this a b getLabel).
Proof.
  rewrite compare_by_key. destruct (_ =? 0); [apply uri_call_by_key|reflexivity].
Qed.

Lemma decided_swap this a b member :
  (forall s t, localeCompare s t = - localeCompare t s) ->
  decided this b a member = - decided this a b member.
Proof.
  intros Hopp. unfold key_compare. cbv zeta.
  rewrite (Z.eqb_sym (scored (query this) (key b member))).
  rewrite (Z.eqb_sym (Str.indexOf (key b member) (query this))).
  rewrite (Z.eqb_sym (Str.length (key b member))).
  rewrite (Hopp (key a member) (key b member)).
  destruct (_ =? _); [|lia]. destruct (_ =? _); [|lia].
  destruct (Z.eqb_spec (Str.length (key a member)) (Str.length (key b member)));
    cbn [negb]; [reflexivity|].
  destruct (Z.ltb_spec (Str.length (key b member)) (Str.length (key a member)));
    destruct (Z.ltb_spec (Str.length (key a member)) (Str.length (key b member)));
    lia.
Qed.

(** X6. Swapping the two candidates negates the answer, for a
    [localeCompare] that does so. *)
Theorem compareItems_swap :
  (forall s t, localeCompare s t = - localeCompare t s) ->
  forall fuel this a b member,
    compare fuel this b a member = option_map Z.opp (compare fuel this a b member).
Proof.
  intros Hopp. induction fuel as [|fuel IH]; intros this a b member; [reflexivity|].
  rewrite !compare_by_key, (decided_swap this a b member Hopp).
  destruct (Z.eqb_spec (decided this a b member) 0) as [E|E].
  - rewrite E. cbn [Z.opp Z.eqb]. destruct member; [apply IH|reflexivity].
  - now rewrite (proj2 (Z.eqb_neq _ 0)) by lia.
Qed.

(** What one call finds is an order: it composes, and it is a tie only
    between ties. *)
Lemma decided_trans this a b c member :
  (forall s t, localeCompare s t < 0 <-> 0 < localeCompare t s) ->
  (forall s t u, localeCompare s t <= 0 -> localeCompare t u <= 0 ->
                 localeCompare s u <= 0) ->
  decided this a b member <= 0 -> decided this b c member <= 0 ->
  decided this a c member <= 0 /\
  (decided this a c member = 0 ->
   decided this a b member = 0 /\ decided this b c member = 0).
Proof.
  intros Hsign Htrans. unfold key_compare. cbv zeta.
  generalize (scored (query this) (key a member)) (scored (query this) (key b member))
    (scored (query this) (key c member)).
  generalize (Str.indexOf (key a member) (query this))
    (Str.indexOf (key b member) (query this)) (Str.indexOf (key c member) (query this)).
  generalize (Str.length (key a member)) (Str.length (key b member))
    (Str.length (key c member)).
  pose proof (Hsign (key a member) (key b member)) as Sab.
  pose proof (Hsign (key b member) (key a member)) as Sba.
  pose proof (Hsign (key b member) (key c member)) as Sbc.
  pose proof (Hsign (key c member) (key b member)) as Scb.
  pose proof (Hsign (key a member) (key c member)) as Sac.
  pose proof (Hsign (key c member) (key a member)) as Sca.
  pose proof (Htrans (key c member) (key b member) (key a member)) as Tcba.
  pose proof (Htrans (key a member) (key b member) (key c member)) as Tabc.
  pose proof (Htrans (key a member) (key c member) (key b member)) as Tacb.
  pose proof (Htrans (key b member) (key a member) (key c member)) as Tbac.
  pose proof (Htrans (key b member) (key c member) (key a member)) as Tbca.
  pose proof (Htrans (key c member) (key a member) (key b member)) as Tcab.
  revert Sab Sba Sbc Scb Sac Sca Tcba Tabc Tacb Tbac Tbca Tcab.
  generalize (localeCompare (key a member) (key b member))
    (localeCompare (key b member) (key a member))
    (localeCompare (key b member) (key c member))
    (localeCompare (key c member) (key b member))
    (localeCompare (key a member) (key c member))
    (localeCompare (key c member) (key a member)).
  intros xab xba xbc xcb xac xca Sab Sba Sbc Scb Sac Sca Tcba Tabc Tacb Tbac Tbca Tcab.
  intros la lb lc ia ib ic sa sb sc.
  destruct (Z.eqb_spec sa sb), (Z.eqb_spec sb sc), (Z.eqb_spec sa sc); try lia;
  destruct (Z.eqb_spec ia ib), (Z.eqb_spec ib ic), (Z.eqb_spec ia ic); try lia;
  destruct (Z.eqb_spec la lb), (Z.eqb_spec lb lc), (Z.eqb_spec la lc);
    cbn [negb]; try lia;
  destruct (Z.ltb_spec la lb), (Z.ltb_spec lb lc), (Z.ltb_spec la lc); lia.
Qed.

(** X7. The comparator is transitive, for a [localeCompare] that orders the
    strings: when it does not put [a] after [b] nor [b] after [c], it does
    not put [a] after [c]. *)
Theorem compareItems_transitive :
  (forall s t, localeCompare s t < 0 <-> 0 < localeCompare t s) ->
  (forall s t u, localeCompare s t <= 0 -> localeCompare t u <= 0 ->
                 localeCompare s u <= 0) ->
  forall fuel this a b c member rab rbc,
    compare (S (S fuel)) this a b member = Some rab ->
    compare (S (S fuel)) this b c member = Some rbc ->
    rab <= 0 -> rbc <= 0 ->
    exists rac, compare (S (S fuel)) this a c member = Some rac /\ rac <= 0.
Proof.
  intros Hsign Htrans fuel this a b c member rab rbc.
  pose proof (decided_trans this a b c getUri Hsign Htrans) as U.
  pose proof (decided_trans this a b c getLabel Hsign Htrans) as L.
  destruct member.
  - rewrite !label_call_by_key. intros Hab Hbc. inversion Hab; inversion Hbc.
    clear Hab Hbc. subst rab rbc. intros Rab Rbc. eexists. split; [reflexivity|].
    destruct (Z.eqb_spec (decided this a b getLabel) 0),
             (Z.eqb_spec (decided this b c getLabel) 0),
             (Z.eqb_spec (decided this a c getLabel) 0); lia.
  - rewrite !uri_call_by_key. intros Hab Hbc. inversion Hab; inversion Hbc.
    subst rab rbc. intros Rab Rbc. eexists. split; [reflexivity|]. lia.
Qed.

Lemma decided_zero this a b member :
  decided this a b member = 0 <->
  scored (query this) (key a member) = scored (query this) (key b member) /\
  Str.indexOf (key a member) (query this) = Str.indexOf (key b member) (query this) /\
  Str.length (key a member) = Str.length (key b member) /\
  localeCompare (key b member) (key a member) = 0.
Proof.
  unfold key_compare. cbv zeta.
  destruct (Z.eqb_spec (scored (query this) (key a member))
                       (scored (query this) (key b member))); [|lia].
  destruct (Z.eqb_spec (Str.indexOf (key a member) (query this))
                       (Str.indexOf (key b member) (query this))); [|lia].
  destruct (Z.eqb_spec (Str.length (key a member)) (Str.length (key b member)));
    cbn [negb]; [tauto|].
  destruct (_ <? _); lia.
Qed.

(** X8. For a [localeCompare] that answers 0 exactly on equal strings, two
    candidates compare as equal exactly when their normalized labels are
    equal and their normalized uri paths are equal. *)
Theorem compareItems_zero_iff :
  (forall s t, localeCompare s t = 0 <-> s = t) ->
  forall fuel this a b,
    compare (S (S fuel)) this a b getLabel = Some 0 <->
    key a getLabel = key b getLabel /\ key a getUri = key b getUri.
Proof.
  intros Hzero fuel this a b. rewrite label_call_by_key.
  assert (Z : forall m, decided this a b m = 0 <-> key a m = key b m).
  { intros m. rewrite decided_zero. split.
    - intros (_ & _ & _ & H). symmetry. now apply Hzero.
    - intros E. rewrite E. repeat split. now apply Hzero. }
  destruct (Z.eqb_spec (decided this a b getLabel) 0) as [E|E].
  - split.
    + intros H. inversion H as [H0]. split; now apply Z.
    + intros [_ H]. f_equal. now apply Z.
  - split.
    + intros H. inversion H. contradiction.
    + intros [H _]. apply Z in H. contradiction.
Qed.

(** Up to 2^53 a double holds every integer. *)
Lemma round53_exact v : 0 <= v <= 2 ^ 53 -> Num.round53 v = v.
Proof.
  intros Hv. destruct (Z.eq_dec v (2 ^ 53)) as [->|Hne].
  - vm_compute. reflexivity.
  - apply round53_small. lia.
Qed.

Lemma score_in_exact_range q str :
  0 <= fuzzy_contribution
         (fuzzy_match (Str.join (split_WHITESPACE_QUERY_SEPARATOR q)) str)
    <= 2 ^ 53 - 500 ->
  0 <= scored q str <= 2 ^ 53.
Proof.
  rewrite score_spec_score. unfold spec_score. cbv zeta.
  destruct (forallb _ _); [lia|]. destruct (existsb _ _); lia.
Qed.

(** X9. For fuzzy scores from 0 to 2^53 - 500 the scores are integers that
    a double holds, so that the sums of the source are exact, and then a
    label that contains every token of the filter sorts before one that
    does not, and a label that contains some token before one that
    contains none, unless the fuzzy score of the other one is higher by 250
    or more. *)
Theorem literal_match_outranks fuel this a b member :
  let tokens := split_WHITESPACE_QUERY_SEPARATOR (query this) in
  let fuzzy x := fuzzy_contribution
                   (fuzzy_match (Str.join tokens) (key x member)) in
  0 <= fuzzy a <= 2 ^ 53 - 500 ->
  0 <= fuzzy b <= 2 ^ 53 - 500 ->
  fuzzy b - fuzzy a < 250 ->
  (forallb (Str.includes (key a member)) tokens = true /\
   forallb (Str.includes (key b member)) tokens = false) \/
  (existsb (Str.includes (key a member)) tokens = true /\
   existsb (Str.includes (key b member)) tokens = false) ->
  Num.round53 (scored (query this) (key a member))
    = scored (query this) (key a member) /\
  Num.round53 (scored (query this) (key b member))
    = scored (query this) (key b member) /\
  sorts_first (compare (S fuel) this a b member).
Proof.
  intros tokens fuzzy Ra Rb Hf Hlit.
  split; [apply round53_exact, score_in_exact_range, Ra|].
  split; [apply round53_exact, score_in_exact_range, Rb|].
  assert (D : scored (query this) (key b member)
              - scored (query this) (key a member) < 0).
  { rewrite !score_spec_score. unfold spec_score. fold tokens.
    fold (fuzzy a) (fuzzy b).
    destruct Hlit as [[Ha Hb]|[Ha Hb]].
    - rewrite Ha, Hb. destruct (existsb _ _); lia.
    - rewrite Ha, Hb.
      assert (Nb : forallb (Str.includes (key b member)) tokens = false).
      { destruct (forallb (Str.includes (key b member)) tokens) eqn:Fb;
          [|reflexivity].
        unfold tokens in *.
        destruct (split_WHITESPACE_QUERY_SEPARATOR (query this)) as [|t ts];
          [discriminate|].
        simpl in Fb, Hb. apply andb_true_iff in Fb as [Fb _].
        now rewrite Fb in Hb. }
      rewrite Nb. destruct (forallb (Str.includes (key a member)) tokens); lia. }
  rewrite scores_differ by lia. eexists. split; [reflexivity|exact D].
Qed.

End OrderFacts.

Section TokenFacts.

Variable fuzzy_match : jsstring -> jsstring -> option FuzzyScore.

Lemma indexOf_from_includes p : forall s i,
  0 <= i ->
  (Str.includes s p = true -> i <= Str.indexOf_from i s p) /\
  (Str.includes s p = false -> Str.indexOf_from i s p = -1).
Proof.
  induction s as [|c s IH]; intros i Hi; simpl.
  - destruct (Str.startsWith [] p); simpl; split; intros; (lia || congruence).
  - destruct (Str.startsWith (c :: s) p); simpl.
    + split; intros; (lia || congruence).
    + destruct (IH (i + 1) ltac:(lia)) as [I1 I2]. split; intros H.
      * specialize (I1 H). lia.
      * now apply I2.
Qed.

(** [includes] and [indexOf] agree on whether a string occurs. *)
Lemma includes_indexOf s p :
  Str.includes s p = (0 <=? Str.indexOf s p).
Proof.
  unfold Str.indexOf.
  destruct (indexOf_from_includes p s 0 (Z.le_refl 0)) as [I1 I2].
  destruct (Str.includes s p).
  - symmetry. apply Z.leb_le. now apply I1.
  - rewrite I2 by reflexivity. reflexivity.
Qed.

Lemma split_ws_from_plain s : forall acc,
  Forall (fun c => Str.is_space c = false) s ->
  Str.split_ws_from s acc false = [rev acc ++ s].
Proof.
  induction s as [|c s IH]; intros acc F.
  - simpl. now rewrite app_nil_r.
  - inversion F as [|? ? Hc F']; subst. cbn [Str.split_ws_from]. rewrite Hc.
    rewrite IH by exact F'. cbn [rev]. now rewrite <- app_assoc.
Qed.

(** X10. A filter without white space is one token: a label gets the exact
    bonus of 500 exactly when the filter occurs in it, that is when
    [indexOf] finds it, and never the partial bonus. *)
Theorem single_token_score query str :
  Forall (fun c => Str.is_space c = false) query ->
  score fuzzy_match query str
  = fuzzy_contribution (fuzzy_match query str)
    + (if 0 <=? Str.indexOf str query then 500 else 0).
Proof.
  intros F. rewrite score_spec_score. unfold spec_score.
  unfold split_WHITESPACE_QUERY_SEPARATOR, Str.split_ws.
  rewrite (split_ws_from_plain query [] F).
  cbn [rev app Str.join List.concat forallb existsb].
  rewrite app_nil_r, andb_true_r, orb_false_r, includes_indexOf.
  destruct (0 <=? Str.indexOf str query); lia.
Qed.

End TokenFacts.

Lemma single_token_score_witness :
  Host.score (js "ab") (js "xab")
  = fuzzy_contribution (Host.fuzzy_match (js "ab") (js "xab"))
    + (if 0 <=? Str.indexOf (js "xab") (js "ab") then 500 else 0).
Proof.
  apply (single_token_score Host.fuzzy_match (js "ab") (js "xab")).
  vm_compute. repeat constructor.
Defined.

Section HostOrder.

Lemma host_localeCompare_opp : forall s t,
  Host.localeCompare s t = - Host.localeCompare t s.
Proof.
  induction s as [|c s IH]; intros [|d t]; simpl; try reflexivity.
  destruct (N.ltb_spec c d), (N.ltb_spec d c); try lia; try reflexivity.
  apply IH.
Qed.

Lemma host_localeCompare_sign s t :
  Host.localeCompare s t < 0 <-> 0 < Host.localeCompare t s.
Proof. rewrite (host_localeCompare_opp s t). lia. Qed.

Lemma host_localeCompare_trans : forall s t u,
  Host.localeCompare s t <= 0 -> Host.localeCompare t u <= 0 ->
  Host.localeCompare s u <= 0.
Proof.
  induction s as [|c s IH]; intros [|d t] [|e u]; simpl; try lia.
  destruct (N.ltb_spec c d), (N.ltb_spec d c), (N.ltb_spec d e),
    (N.ltb_spec e d), (N.ltb_spec c e), (N.ltb_spec e c); try lia.
  apply IH.
Qed.

Lemma host_localeCompare_zero : forall s t,
  Host.localeCompare s t = 0 <-> s = t.
Proof.
  induction s as [|c s IH]; intros [|d t]; simpl; try (split; (lia || congruence)).
  destruct (N.ltb_spec c d), (N.ltb_spec d c);
    try (split; [lia|intros E; inversion E; lia]).
  rewrite IH. assert (c = d) by lia. subst d.
  split; [now intros ->|now intros E; inversion E].
Qed.

End HostOrder.

Lemma compareItems_swap_witness :
  Host.compareItems 2 (Host.service "ab")
    (Host.item "xab" "/w") (Host.item "ab" "/w") getLabel
  = option_map Z.opp
      (Host.compareItems 2 (Host.service "ab")
         (Host.item "ab" "/w") (Host.item "xab" "/w") getLabel).
Proof.
  exact (compareItems_swap Host.toLowerCase Host.localeCompare Host.fuzzy_match
           host_localeCompare_opp 2 (Host.service "ab")
           (Host.item "ab" "/w") (Host.item "xab" "/w") getLabel).
Defined.

Lemma compareItems_transitive_witness :
  exists rac,
    Host.compareItems 2 (Host.service "ab")
      (Host.item "ab" "/w") (Host.item "xxab" "/w") getLabel = Some rac /\
    rac <= 0.
Proof.
  refine (compareItems_transitive Host.toLowerCase Host.localeCompare
            Host.fuzzy_match host_localeCompare_sign host_localeCompare_trans
            0 (Host.service "ab") (Host.item "ab" "/w") (Host.item "xab" "/w")
            (Host.item "xxab" "/w") getLabel (-996) (-1) _ _ _ _).
  - vm_compute. reflexivity.
  - vm_compute. reflexivity.
  - lia.
  - lia.
Defined.

Lemma compareItems_zero_iff_witness :
  Host.compareItems 2 (Host.service "ab")
    (Host.item "AB.ts" "/w") (Host.item "ab.ts " "/W") getLabel = Some 0.
Proof.
  apply (compareItems_zero_iff Host.toLowerCase Host.localeCompare
           Host.fuzzy_match host_localeCompare_zero 0 (Host.service "ab")
           (Host.item "AB.ts" "/w") (Host.item "ab.ts " "/W")).
  split; vm_compute; reflexivity.
Defined.

Lemma literal_match_outranks_witness :
  sorts_first (Host.compareItems 1 (Host.service "a b")
    (Host.item "b-a" "/w") (Host.item "a-x" "/w") getLabel).
Proof.
  refine (proj2 (proj2 (literal_match_outranks Host.toLowerCase
            Host.localeCompare Host.fuzzy_match 0 (Host.service "a b")
            (Host.item "b-a" "/w") (Host.item "a-x" "/w") getLabel _ _ _ _))).
  - vm_compute. split; discriminate.
  - vm_compute. split; discriminate.
  - vm_compute. reflexivity.
  - left. split; vm_compute; reflexivity.
Defined.

(** * The dialog *)

Section OpenFacts.

Lemma opens_succ n this : opens (S n) this = fst (open (opens n this)).
Proof. reflexivity. Qed.

Lemma opens_while_open n : forall this,
  isOpen this = true ->
  isOpen (opens n this) = true /\
  hideIgnoredFiles (opens n this) = xorb (hideIgnoredFiles this) (Nat.odd n) /\
  filterAndRange (opens n this) = filterAndRange this.
Proof.
  induction n as [|n IH]; intros this Hopen.
  - cbn. now rewrite xorb_false_r.
  - destruct (IH this Hopen) as (I1 & I2 & I3).
    rewrite opens_succ. unfold open. rewrite I1. cbn [fst hideIgnoredFiles
      isOpen filterAndRange]. rewrite ?I1, I2, I3, Nat.odd_succ, <- Nat.negb_odd.
    repeat split. now destruct (hideIgnoredFiles this), (Nat.odd n).
Qed.

(** X11. Presses of the keyboard shortcut in a row: from a closed dialog the
    first one opens it with an empty filter and the ignored files hidden,
    and every further one only flips whether ignored files are hidden; on
    an open dialog every press flips that and keeps the filter. *)
Theorem opens_flip_ignored n this :
  (isOpen this = false ->
   isOpen (opens (S n) this) = true /\
   hideIgnoredFiles (opens (S n) this) = Nat.even n /\
   filterAndRange (opens (S n) this) = filterAndRangeDefault) /\
  (isOpen this = true ->
   isOpen (opens n this) = true /\
   hideIgnoredFiles (opens n this) = xorb (hideIgnoredFiles this) (Nat.odd n) /\
   filterAndRange (opens n this) = filterAndRange this).
Proof.
  split; [|apply opens_while_open].
  intros Hclosed. unfold opens. rewrite Nat.iter_succ_r.
  fold (opens n (fst (open this))). unfold open at 1 2 3. rewrite Hclosed.
  cbn [fst].
  destruct (opens_while_open n
    {| hideIgnoredFiles := true; isOpen := true;
       filterAndRange := filterAndRangeDefault |} eq_refl) as (I1 & I2 & I3).
  rewrite I1, I2, I3. cbn [hideIgnoredFiles filterAndRange].
  rewrite <- Nat.negb_odd. now destruct (Nat.odd n).
Qed.

Lemma opens_flip_ignored_witness :
  hideIgnoredFiles (opens 3 (onClose (Host.service "abc"))) = Nat.even 2 /\
  filterAndRange (opens 2 (Host.service "abc")) = filterAndRange (Host.service "abc").
Proof.
  split.
  - apply (proj1 (opens_flip_ignored 2 (onClose (Host.service "abc")))).
    reflexivity.
  - apply (proj2 (opens_flip_ignored 2 (Host.service "abc"))). reflexivity.
Defined.

End OpenFacts.

Section SetFacts.

Lemma Str_eqb_eq : forall s t, Str.eqb s t = true <-> s = t.
Proof.
  induction s as [|c s IH]; intros [|d t]; simpl; try (split; congruence).
  rewrite andb_true_iff, N.eqb_eq, IH. split; [intros []|intros E; inversion E];
    subst; auto.
Qed.

Lemma set_has_In set s : set_has set s = true <-> In s set.
Proof.
  unfold set_has. rewrite existsb_exists. split.
  - intros (x & Hx & E). apply Str_eqb_eq in E. now subst x.
  - intros H. exists s. split; [exact H|now apply Str_eqb_eq].
Qed.

Lemma set_has_false set s : set_has set s = false <-> ~ In s set.
Proof.
  rewrite <- set_has_In. destruct (set_has set s); split; congruence.
Qed.

Lemma set_add_new set s : set_has set s = false -> set_add set s = set ++ [s].
Proof. unfold set_add. now intros ->. Qed.

End SetFacts.

Section RecentFacts.

Variable Uri : Type.
Variable services : Services Uri.

Local Notation "'collect'" := (collect_recent services).
Local Notation "'string_of'" := (uri_toString services).

Lemma toItem_uri (u : Uri) group :
  listed_uri services (toItem services (inl u) group) = Some (string_of u) /\
  opt_group (toItem services (inl u) group) = group.
Proof. split; reflexivity. Qed.

Lemma collect_recent_cons fileFilter u locations :
  collect fileFilter (u :: locations)
  = visit_location services fileFilter (collect fileFilter locations) u.
Proof.
  unfold collect_recent. cbn [rev]. now rewrite fold_left_app.
Qed.

(** The two collections after the loop over the locations. *)
Lemma collect_recent_inv fileFilter : forall locations,
  fst (collect fileFilter locations)
  = rev (nodup jsstring_eq_dec
           (map string_of (List.filter (wanted_location services fileFilter) locations))) /\
  map (listed_uri services) (snd (collect fileFilter locations))
  = map Some (fst (collect fileFilter locations)) /\
  map opt_group (snd (collect fileFilter locations))
  = match snd (collect fileFilter locations) with
    | [] => []
    | _ :: others =>
        Some (recently_opened_group true)
        :: repeat (Some (recently_opened_group false)) (List.length others)
    end.
Proof.
  induction locations as [|u locations (I1 & I2 & I3)]; [repeat split|].
  rewrite collect_recent_cons. unfold visit_location, wanted_location in *.
  cbn [List.filter].
  set (state := collect fileFilter locations) in *.
  set (wanted := fun location : Uri => _) in *.
  destruct (Str.eqb (uri_scheme services u) (js "file")); cbn [andb];
    [|now repeat split].
  destruct (set_has (fst state) (string_of u)) eqn:Has; cbn [negb andb].
  - assert (In (string_of u) (map string_of (List.filter wanted locations))) as Hin.
    { apply set_has_In in Has. rewrite I1 in Has. apply in_rev in Has.
      now apply nodup_In in Has. }
    destruct (fuzzy_test services fileFilter (string_of u)); [|now repeat split].
    cbn [map nodup]. destruct (in_dec _ _ _); [now repeat split|contradiction].
  - destruct (fuzzy_test services fileFilter (string_of u)); [|now repeat split].
    assert (~ In (string_of u) (map string_of (List.filter wanted locations))) as Hin.
    { apply set_has_false in Has. rewrite I1 in Has. intros H. apply Has.
      apply in_rev. rewrite rev_involutive. now apply nodup_In. }
    rewrite (set_add_new _ _ Has). cbn [fst snd map nodup].
    destruct (in_dec _ _ _); [contradiction|]. cbn [rev]. split; [now rewrite I1|].
    split.
    + now rewrite !map_app, I2.
    + rewrite map_app, I3. cbn [map opt_group toItem].
      destruct (snd state) as [|r others]; [reflexivity|].
      cbn [List.length Nat.eqb app]. rewrite length_app. cbn [List.length].
      rewrite Nat.add_1_r. cbn [repeat].
      now rewrite <- repeat_cons.
Qed.

(** X12. The recently used items are the locations under the scheme "file"
    that pass the fuzzy test of the filter, the last location first, each
    uri once, at its last place among the locations. *)
Theorem recent_items_order fileFilter locations :
  map (listed_uri services) (snd (collect fileFilter locations))
  = map Some
      (rev (nodup jsstring_eq_dec
              (map string_of
                 (List.filter (wanted_location services fileFilter) locations)))).
Proof.
  destruct (collect_recent_inv fileFilter locations) as (I1 & I2 & _).
  now rewrite I2, I1.
Qed.

(** X13. Among the recently used items the first one, and only it, carries
    the group label "recently opened"; none of them has a border. *)
Theorem recent_items_groups fileFilter locations :
  map opt_group (snd (collect fileFilter locations))
  = match snd (collect fileFilter locations) with
    | [] => []
    | _ :: others =>
        Some (recently_opened_group true)
        :: repeat (Some (recently_opened_group false)) (List.length others)
    end.
Proof. apply collect_recent_inv. Qed.

End RecentFacts.

Section HandlerFacts.

Variable Uri : Type.
Variable services : Services Uri.
Variable toLowerCase : jsstring -> jsstring.
Variable localeCompare : jsstring -> jsstring -> Z.
Variable fuzzy_match : jsstring -> jsstring -> option FuzzyScore.

Hypothesis sort_permutes : forall (A : Type) (cmp : A -> A -> Z) (l : list A),
  Permutation (array_sort services cmp l) l.

Local Notation "'handle'" :=
  (handler services toLowerCase localeCompare fuzzy_match).
Local Notation "'result_item'" := (fun s => toItem services (inr s) None).
Local Notation "'result_uri'" := (fun s => Some (new_URI services s)).

(** The loop over the results adds the results that are new, each once. *)
Lemma visit_results_inv : forall results seen news,
  NoDup news -> (forall s, In s news -> ~ In s seen) ->
  exists news',
    fold_left (visit_result services) results (seen ++ news, map result_item news)
    = (seen ++ news', map result_item news') /\
    NoDup news' /\
    (forall s, In s news' <-> In s news \/ In s results /\ ~ In s seen).
Proof.
  induction results as [|r results IH]; intros seen news ND Fresh.
  - exists news. repeat split; trivial; [tauto|intros [H|[[] _]]; exact H].
  - cbn [fold_left]. unfold visit_result at 2. cbn [fst snd].
    destruct (set_has (seen ++ news) r) eqn:Has; cbn [negb].
    + destruct (IH seen news ND Fresh) as (news' & E & ND' & M).
      exists news'. repeat split; trivial.
      * intros H. apply M in H. cbn [In]. tauto.
      * intros [H|[[H|H] Hs]]; apply M; auto.
        subst s. apply set_has_In, in_app_or in Has. tauto.
    + apply set_has_false in Has. rewrite (set_add_new _ _ (proj2 (set_has_false _ _) Has)).
      assert (Hr : ~ In r seen /\ ~ In r news).
      { split; intros H; apply Has, in_or_app; auto. }
      destruct (IH seen (news ++ [r])) as (news' & E & ND' & M).
      * apply NoDup_app; [exact ND|repeat constructor; intros []|].
        intros s H [<-|[]]. tauto.
      * intros s H. apply in_app_or in H as [H|[<-|[]]]; [now apply Fresh|tauto].
      * exists news'. rewrite <- app_assoc.
        replace (map result_item news ++ [toItem services (inr r) None])
          with (map result_item (news ++ [r])) by (now rewrite map_app).
        repeat split; trivial.
        -- intros H. apply M in H as [H|H]; [|cbn [In]; tauto].
           apply in_app_or in H as [H|[<-|[]]]; cbn [In]; tauto.
        -- intros [H|[[H|H] Hs]]; apply M.
           ++ left. apply in_or_app. auto.
           ++ subst s. left. apply in_or_app. right. now left.
           ++ auto.
Qed.

Lemma map_constant {A B : Type} (f : A -> B) (b : B) (l : list A) :
  Forall (fun x => f x = b) l -> map f l = repeat b (List.length l).
Proof.
  induction 1 as [|x l Hx _ IH]; [reflexivity|]. cbn. now rewrite Hx, IH.
Qed.

(** What the handler gives to the acceptor for results that are not empty:
    the recently used items, then one item for every new result. *)
Lemma handler_shape this collected results :
  results <> [] ->
  exists files news,
    handle this false collected results = Some (snd collected ++ files) /\
    NoDup news /\
    (forall s, In s news <-> In s results /\ ~ In s (fst collected)) /\
    Permutation (map opt_uri files) (map result_uri news) /\
    map opt_group files
    = match files with
      | [] => []
      | _ :: others =>
          Some (file_results_group (List.length (snd collected)))
          :: repeat None (List.length others)
      end.
Proof.
  intros Hne. unfold handler. cbn [negb].
  destruct results as [|r0 results0]; [congruence|]. cbn [List.length Nat.leb].
  set (results := r0 :: results0) in *.
  destruct (visit_results_inv results (fst collected) [] (NoDup_nil _))
    as (news & E & ND & M); [intros s []|].
  rewrite app_nil_r in E. cbn [map] in E. rewrite E. cbn [snd].
  pose proof (sort_permutes _ (compare_listed services toLowerCase localeCompare
    fuzzy_match this) (map result_item news)) as P.
  set (sorted := array_sort services _ _) in *.
  assert (Built : Forall (fun item => exists s, item = result_item s) sorted).
  { apply Forall_forall. intros item H.
    apply (Permutation_in _ P), in_map_iff in H as (s & <- & _). now exists s. }
  assert (Uris : Permutation (map opt_uri sorted) (map result_uri news)).
  { apply (Permutation_map opt_uri) in P. now rewrite map_map in P. }
  assert (M' : forall s, In s news <-> In s results /\ ~ In s (fst collected)).
  { intros s. rewrite (M s). cbn [In]. tauto. }
  destruct sorted as [|first others].
  - exists [], news. repeat split; trivial; apply M'; trivial.
  - inversion Built as [|? ? (s & Hfirst) Bothers]; subst.
    eexists (_ :: others), news. split; [reflexivity|].
    split; [exact ND|]. split; [exact M'|].
    split; [exact Uris|]. cbn [map opt_group toItem]. f_equal.
    apply map_constant. revert Bothers. apply Forall_impl.
    now intros item (s' & ->).
Qed.

(** X14. The handler does not call the acceptor once the search is
    cancelled; without any result it gives it the single item "No matching
    results", also when there are recently used items; otherwise it gives
    it the recently used items followed by one item for every result that
    was not collected before, each once, and nothing else. *)
Theorem handler_lists_new_results this collected results :
  handle this true collected results = None /\
  handle this false collected [] = Some [toNoResultsItem] /\
  (results <> [] ->
   exists files news,
     handle this false collected results = Some (snd collected ++ files) /\
     NoDup news /\
     (forall s, In s news <-> In s results /\ ~ In s (fst collected)) /\
     Permutation (map opt_uri files) (map result_uri news)).
Proof.
  split; [reflexivity|]. split; [reflexivity|]. intros Hne.
  destruct (handler_shape this collected results Hne)
    as (files & news & H & ND & M & P & _).
  now exists files, news.
Qed.

(** X15. Among the file results that the handler lists, the first one, and
    only it, carries the group label "file results"; it has a border
    exactly when recently used items come before it. *)
Theorem handler_groups_first_result this collected results :
  results <> [] ->
  exists files,
    handle this false collected results = Some (snd collected ++ files) /\
    map opt_group files
    = match files with
      | [] => []
      | _ :: others =>
          Some (file_results_group (List.length (snd collected)))
          :: repeat None (List.length others)
      end.
Proof.
  intros Hne.
  destruct (handler_shape this collected results Hne)
    as (files & news & H & _ & _ & _ & G).
  now exists files.
Qed.

(** X16. No file is listed twice: when the uris of the results print as the
    strings that the search gave, the uris of the items that the handler
    lists after a round of [onType] are all different. *)
Theorem no_file_listed_twice this fileFilter locations results :
  (forall s, In s results -> uri_toString services (new_URI services s) = s) ->
  results <> [] ->
  exists items,
    handle this false (collect_recent services fileFilter locations) results
    = Some items /\
    NoDup (map (listed_uri services) items).
Proof.
  intros Round Hne.
  set (collected := collect_recent services fileFilter locations).
  destruct (handler_shape this collected results Hne)
    as (files & news & H & ND & M & P & _).
  destruct (collect_recent_inv Uri services fileFilter locations) as (I1 & I2 & _).
  fold collected in I1, I2.
  exists (snd collected ++ files). split; [exact H|].
  assert (Pf : Permutation (map (listed_uri services) files) (map Some news)).
  { apply (Permutation_map (option_map (uri_toString services))) in P.
    rewrite !map_map in P. unfold listed_uri.
    eapply Permutation_trans; [exact P|].
    erewrite map_ext_in; [apply Permutation_refl|].
    intros s Hs. cbn. f_equal. apply Round. now apply M. }
  rewrite map_app, I2.
  apply (Permutation_NoDup (l := map Some (fst collected ++ news))).
  - rewrite map_app. apply Permutation_app_head. now symmetry.
  - apply Finite.Injective_map_NoDup; [intros x y E; now inversion E|].
    apply NoDup_app; [|exact ND|].
    + rewrite I1. apply NoDup_rev, NoDup_nodup.
    + intros s Hs Hn. apply M in Hn. tauto.
Qed.

End HandlerFacts.

Section TypingFacts.

Variable Uri : Type.
Variable services : Services Uri.

(** X17. Typing only a location, an opening mark and a line number, starts
    no search: the filter is empty, the recently used items are listed (or
    nothing without a workspace root), and the line is kept for the file
    that is opened next. *)
Theorem typed_location_only this mark digits roots locations :
  is_open_mark mark = true ->
  digits <> [] ->
  Forall (fun c => Str.is_digit c = true) digits ->
  Num.digits_value digits < 2 ^ 53 ->
  let target := point (zero_based (Num.digits_value digits)) 0 in
  onType services this (mark :: digits) roots locations
  = ({| hideIgnoredFiles := hideIgnoredFiles this;
        isOpen := isOpen this;
        filterAndRange := {| filter := []; range := Some target |} |},
     if negb (List.length roots =? 0)%nat
     then Accepted (snd (collect_recent services [] locations))
     else Silent) /\
  buildOpenerOptions (fst (onType services this (mark :: digits) roots locations))
  = Some target.
Proof.
  intros Hm Hne Fd Hv target. unfold onType.
  assert (Split : splitFilterAndRange (mark :: digits)
                  = {| filter := []; range := Some target |}).
  { destruct digits as [|d ds]; [congruence|].
    apply (split_at_line_match _ [] d ds); trivial.
    apply (exec_after_name [] (mark :: d :: ds)); trivial.
    now apply match_line_suffix. }
  rewrite Split.
  cbn [filterAndRange filter Str.length List.length Z.of_nat Z.ltb Z.compare].
  split; [|now destruct (negb _)].
  now destruct (negb _).
Qed.

(** X18. A line that was typed wins over the view state of a closed editor:
    after typing an expression with a recognized location, opening a file
    restores no view state. *)
Theorem requested_line_wins (ViewState : Type) this lookFor roots locations
    uri (closedEditorsStack : list (Uri * ViewState)) isEditorWidget :
  range (splitFilterAndRange lookFor) <> None ->
  openFile_restores services
    (fst (onType services this lookFor roots locations))
    uri closedEditorsStack isEditorWidget = None.
Proof.
  intros Hr.
  assert (S : buildOpenerOptions
                (fst (onType services this lookFor roots locations))
              = range (splitFilterAndRange lookFor)).
  { unfold onType. destruct (_ <? _); [reflexivity|]. now destruct (negb _). }
  unfold openFile_restores. rewrite S.
  destruct (find _ _); [|reflexivity].
  now destruct (range (splitFilterAndRange lookFor)).
Qed.

End TypingFacts.

Lemma typed_location_only_witness :
  buildOpenerOptions
    (fst (HostDialog.onType (Host.service "") (js ":42") [] [])) = Some (point 41 0).
Proof.
  refine (proj2 (typed_location_only jsstring HostDialog.services (Host.service "")
                   58%N (js "42") [] [] _ _ _ _)).
  - reflexivity.
  - discriminate.
  - vm_compute. repeat constructor.
  - vm_compute. reflexivity.
Defined.

Section HostDialogFacts.

Lemma host_insert_permutes {A : Type} (cmp : A -> A -> Z) x : forall l,
  Permutation (HostDialog.insert cmp x l) (x :: l).
Proof.
  induction l as [|y l IH]; simpl; [apply Permutation_refl|].
  destruct (_ <=? _); [apply Permutation_refl|].
  eapply Permutation_trans; [apply perm_skip, IH|apply perm_swap].
Qed.

Lemma host_sort_permutes (A : Type) (cmp : A -> A -> Z) (l : list A) :
  Permutation (array_sort HostDialog.services cmp l) l.
Proof.
  cbn [array_sort HostDialog.services]. unfold HostDialog.sort.
  induction l as [|x l IH]; simpl; [constructor|].
  eapply Permutation_trans; [apply host_insert_permutes|now apply perm_skip].
Qed.

End HostDialogFacts.

Lemma handler_lists_new_results_witness :
  exists files news,
    HostDialog.handler (Host.service "ab") false
      ([js "file:/w/ab"], [toItem HostDialog.services (inl (js "file:/w/ab")) None])
      [js "file:/w/xab"; js "file:/w/ab"; js "file:/w/xab"]
    = Some ([toItem HostDialog.services (inl (js "file:/w/ab")) None] ++ files) /\
    NoDup news /\
    (forall s, In s news <->
       In s [js "file:/w/xab"; js "file:/w/ab"; js "file:/w/xab"] /\
       ~ In s [js "file:/w/ab"]) /\
    Permutation (map opt_uri files) (map (fun s => Some s) news).
Proof.
  refine (proj2 (proj2 (handler_lists_new_results jsstring HostDialog.services
    Host.toLowerCase Host.localeCompare Host.fuzzy_match host_sort_permutes
    (Host.service "ab")
    ([js "file:/w/ab"], [toItem HostDialog.services (inl (js "file:/w/ab")) None])
    [js "file:/w/xab"; js "file:/w/ab"; js "file:/w/xab"])) _).
  discriminate.
Defined.

Lemma handler_groups_first_result_witness :
  exists files,
    HostDialog.handler (Host.service "ab") false ([], [])
      [js "file:/w/xab"; js "file:/w/ab"]
    = Some ([] ++ files) /\
    map opt_group files
    = match files with
      | [] => []
      | _ :: others =>
          Some (file_results_group 0) :: repeat None (List.length others)
      end.
Proof.
  refine (handler_groups_first_result jsstring HostDialog.services
    Host.toLowerCase Host.localeCompare Host.fuzzy_match host_sort_permutes
    (Host.service "ab") ([], []) [js "file:/w/xab"; js "file:/w/ab"] _).
  discriminate.
Defined.

Lemma no_file_listed_twice_witness :
  exists items,
    HostDialog.handler (Host.service "ab") false
      (collect_recent HostDialog.services (js "ab")
         [js "file:/w/ab"; js "git:/w/ab"; js "file:/w/ab"])
      [js "file:/w/xab"; js "file:/w/ab"]
    = Some items /\
    NoDup (map (listed_uri HostDialog.services) items).
Proof.
  refine (no_file_listed_twice jsstring HostDialog.services
    Host.toLowerCase Host.localeCompare Host.fuzzy_match host_sort_permutes
    (Host.service "ab") (js "ab")
    [js "file:/w/ab"; js "git:/w/ab"; js "file:/w/ab"]
    [js "file:/w/xab"; js "file:/w/ab"] _ _).
  - reflexivity.
  - discriminate.
Defined.

Lemma requested_line_wins_witness :
  openFile_restores HostDialog.services
    (fst (HostDialog.onType (Host.service "") (js "ab.ts:7") [] []))
    (js "file:/w/ab.ts") [(js "file:/w/ab.ts", 3%nat)] true = None.
Proof.
  apply (requested_line_wins jsstring HostDialog.services nat).
  vm_compute. discriminate.
Defined.
